(** * PythonWebServer: a shallow embedding of [webserver.py]

    The definitions come in five modules.

    - [Py]: the part of the Python runtime that [webserver.py] calls:
      [str] as a sequence of code points, [bytes], the strict and the
      replacing UTF-8 codec, [str.split], [str.strip], [str.startswith],
      [os.path.normpath] (of [posixpath]), [urllib.parse.unquote] and
      [urllib.parse.parse_qs].
    - [Server]: the methods of class [WebServer], one definition per
      method, with exceptions as an error monad and the client socket and
      standard output as explicit state.
    - [Wire]: a reader of serialized responses (status line, header block,
      body), used to state what a client sees on the wire.
    - [Sample]: a machine with one file under [www], and some requests.
    - [Vocab]: the predicates the properties are stated with.

    The theorems follow: facts about the runtime model, about the
    connection handler, about texts that can be encoded, about what a
    client reads back, and last the properties of the server. *)

From Stdlib Require Import String Ascii Strings.Byte Numbers.DecimalString.
From Stdlib Require Numbers.DecimalPos Numbers.DecimalN.
From Stdlib Require Import NArith Bool Arith Lia List.
Import ListNotations.

Local Open Scope N_scope.

(* ===================================================================== *)
(** * Python runtime model                                                *)
(* ===================================================================== *)

Module Py.

(** A Python [str] is a sequence of Unicode code points; [len] counts code
    points.  A [bytes] object is a sequence of octets. *)
Definition char := N.
Definition str := list char.
Definition bytes := list byte.

(** A literal of the source text (ASCII only). *)
Definition U (s : string) : str :=
  map N_of_ascii (list_ascii_of_string s).

(** The exception classes that occur.  [KeyboardInterrupt] and [SystemExit]
    derive from [BaseException] only; all others derive from [Exception],
    which is what [except Exception] matches. *)
Inductive exn : Type :=
| UnicodeDecodeError
| UnicodeEncodeError
| ValueError
| IndexError
| AttributeError
| FileNotFoundError
| PermissionError
| IsADirectoryError
| OSError
| KeyboardInterrupt
| SystemExit.

Definition is_Exception (e : exn) : bool :=
  match e with
  | KeyboardInterrupt | SystemExit => false
  | _ => true
  end.

(** ** Pure computations that may raise *)

Definition E (A : Type) : Type := (exn + A)%type.

Definition ret {A} (a : A) : E A := inr a.
Definition raise {A} (e : exn) : E A := inl e.
Definition bind {A B} (m : E A) (k : A -> E B) : E B :=
  match m with
  | inl e => inl e
  | inr a => k a
  end.

Declare Scope py_scope.
Delimit Scope py_scope with py.
Notation "x <- m ;; k" := (bind m (fun x => k))
  (at level 61, m at next level, right associativity) : py_scope.

(** ** Equality and elementary [str] operations *)

Fixpoint str_eqb (a b : str) : bool :=
  match a, b with
  | [], [] => true
  | x :: a', y :: b' => (x =? y) && str_eqb a' b'
  | _, _ => false
  end.

(** [s.startswith(p)] *)
Fixpoint startswith (p s : str) : bool :=
  match p, s with
  | [], _ => true
  | x :: p', y :: s' => (x =? y) && startswith p' s'
  | _ :: _, [] => false
  end.

(** [sub in s] *)
Fixpoint contains (sub s : str) : bool :=
  startswith sub s
  || match s with
     | [] => false
     | _ :: t => contains sub t
     end.

(** [sep.join(parts)] *)
Fixpoint join (sep : str) (parts : list str) : str :=
  match parts with
  | [] => []
  | [p] => p
  | p :: rest => p ++ sep ++ join sep rest
  end.

(** [l[0]] and [l[-1]]: both raise [IndexError] on an empty list. *)
Definition first {A} (l : list A) : E A :=
  match l with
  | [] => raise IndexError
  | x :: _ => ret x
  end.

Fixpoint last_item {A} (l : list A) : E A :=
  match l with
  | [] => raise IndexError
  | [x] => ret x
  | _ :: t => last_item t
  end.

(** [s.split(c)] for a separator [c] of one character: the pieces between
    the occurrences of [c]; never empty. *)
Fixpoint split_chr (c : char) (s : str) : list str :=
  match s with
  | [] => [[]]
  | x :: t =>
      if x =? c then [] :: split_chr c t
      else match split_chr c t with
           | h :: r => (x :: h) :: r
           | [] => [[x]]
           end
  end.

(** [s.partition(sep)]: the text before the first occurrence of the
    non-empty [sep], and the text after it when there is one. *)
Fixpoint partition (sep s : str) : str * option str :=
  match s with
  | [] => ([], None)
  | x :: t =>
      if startswith sep s then ([], Some (skipn (length sep) s))
      else let (h, r) := partition sep t in (x :: h, r)
  end.

(** [s.split(sep, 1)] for a non-empty [sep]: one piece when [sep] does not
    occur, otherwise the text before and the text after its first
    occurrence. *)
Definition split_once (sep s : str) : list str :=
  match partition sep s with
  | (h, None) => [h]
  | (h, Some r) => [h; r]
  end.

(** [s.replace(a, b)] for one-character [a] and [b]. *)
Definition replace_chr (a b : char) (s : str) : str :=
  map (fun x => if x =? a then b else x) s.

(** Unicode white space as [str.strip()] and [str.split()] see it
    ([Py_UNICODE_ISSPACE]). *)
Definition isspace (c : char) : bool :=
  ((0x09 <=? c) && (c <=? 0x0D))
  || ((0x1C <=? c) && (c <=? 0x20))
  || (c =? 0x85) || (c =? 0xA0) || (c =? 0x1680)
  || ((0x2000 <=? c) && (c <=? 0x200A))
  || (c =? 0x2028) || (c =? 0x2029) || (c =? 0x202F)
  || (c =? 0x205F) || (c =? 0x3000).

Fixpoint lstrip (s : str) : str :=
  match s with
  | [] => []
  | c :: t => if isspace c then lstrip t else s
  end.

(** [s.strip()] *)
Definition strip (s : str) : str :=
  rev (lstrip (rev (lstrip s))).

(** [s.split()]: the maximal runs of non-space characters.  [cur] holds the
    run being read, last character first. *)
Fixpoint split_ws_from (cur : str) (s : str) : list str :=
  match s with
  | [] => match cur with [] => [] | _ => [rev cur] end
  | c :: t =>
      if isspace c then
        match cur with
        | [] => split_ws_from [] t
        | _ => rev cur :: split_ws_from [] t
        end
      else split_ws_from (c :: cur) t
  end.

Definition split_ws (s : str) : list str := split_ws_from [] s.

(** [str(n)] for a non-negative [int]. *)
Definition str_of_int (n : N) : str :=
  U (NilEmpty.string_of_uint (N.to_uint n)).

(** [len(s)] *)
Definition len {A} (s : list A) : N := N.of_nat (List.length s).

(** ** The UTF-8 codec *)

Definition octet (n : N) : byte :=
  match Byte.of_N n with
  | Some b => b
  | None => x00
  end.

(** The octets of one code point.  Surrogates have no UTF-8 form; values
    above U+10FFFF are not characters of a [str]. *)
Definition encode_char (c : char) : E (list byte) :=
  if c <? 0x80 then ret [octet c]
  else if c <? 0x800 then
    ret [octet (0xC0 + c / 0x40); octet (0x80 + c mod 0x40)]
  else if c <? 0x10000 then
    if (0xD800 <=? c) && (c <=? 0xDFFF) then raise UnicodeEncodeError
    else ret [octet (0xE0 + c / 0x1000);
              octet (0x80 + (c / 0x40) mod 0x40);
              octet (0x80 + c mod 0x40)]
  else if c <? 0x110000 then
    ret [octet (0xF0 + c / 0x40000);
         octet (0x80 + (c / 0x1000) mod 0x40);
         octet (0x80 + (c / 0x40) mod 0x40);
         octet (0x80 + c mod 0x40)]
  else raise UnicodeEncodeError.

(** [s.encode('utf-8')] *)
Fixpoint encode (s : str) : E bytes :=
  match s with
  | [] => ret []
  | c :: t =>
      (b <- encode_char c ;;
       r <- encode t ;;
       ret (b ++ r))%py
  end.

(** The decoder of CPython ([utf8_decode] of stringlib/codecs.h and its
    caller), on the octet values: the characters read, with [None] for
    every decoding error.  An invalid start byte is an error of one octet;
    an invalid continuation byte is an error of the octets accepted before
    it; data that ends inside a sequence is one error up to the end.
    After an error the decoder goes on behind the offending octets. *)
Definition is_cont (b : N) : bool := (0x80 <=? b) && (b <? 0xC0).

Fixpoint scan_utf8 (bs : list N) : list (option char) :=
  match bs with
  | [] => []
  | b0 :: t0 =>
    if b0 <? 0x80 then Some b0 :: scan_utf8 t0
    else if b0 <? 0xC2 then None :: scan_utf8 t0
    else if b0 <? 0xE0 then
      match t0 with
      | [] => [None]
      | b1 :: t1 =>
        if is_cont b1
        then Some ((b0 - 0xC0) * 0x40 + (b1 - 0x80)) :: scan_utf8 t1
        else None :: scan_utf8 t0
      end
    else if b0 <? 0xF0 then
      match t0 with
      | [] => [None]
      | b1 :: t1 =>
        if negb (is_cont b1)
           || (if b1 <? 0xA0 then b0 =? 0xE0 else b0 =? 0xED)
        then None :: scan_utf8 t0
        else
          match t1 with
          | [] => [None]
          | b2 :: t2 =>
            if is_cont b2
            then Some ((b0 - 0xE0) * 0x1000 + (b1 - 0x80) * 0x40
                       + (b2 - 0x80)) :: scan_utf8 t2
            else None :: scan_utf8 t1
          end
      end
    else if b0 <? 0xF5 then
      match t0 with
      | [] => [None]
      | b1 :: t1 =>
        if negb (is_cont b1)
           || (if b1 <? 0x90 then b0 =? 0xF0 else b0 =? 0xF4)
        then None :: scan_utf8 t0
        else
          match t1 with
          | [] => [None]
          | b2 :: t2 =>
            if negb (is_cont b2) then None :: scan_utf8 t1
            else
              match t2 with
              | [] => [None]
              | b3 :: t3 =>
                if is_cont b3
                then Some ((b0 - 0xF0) * 0x40000 + (b1 - 0x80) * 0x1000
                           + (b2 - 0x80) * 0x40 + (b3 - 0x80))
                     :: scan_utf8 t3
                else None :: scan_utf8 t2
              end
          end
      end
    else None :: scan_utf8 t0
  end.

(** Error handler ['strict']: the first error raises. *)
Fixpoint strict (items : list (option char)) : E str :=
  match items with
  | [] => ret []
  | None :: _ => raise UnicodeDecodeError
  | Some c :: t => (r <- strict t ;; ret (c :: r))%py
  end.

(** Error handler ['replace']: U+FFFD stands for every error. *)
Definition replace_errors (items : list (option char)) : str :=
  map (fun o => match o with Some c => c | None => 0xFFFD end) items.

(** [b.decode('utf-8')] *)
Definition decode (b : bytes) : E str :=
  strict (scan_utf8 (map Byte.to_N b)).

(** [bytes(octets).decode('utf-8', 'replace')] *)
Definition decode_replace (octets : list N) : str :=
  replace_errors (scan_utf8 octets).

(** ** [posixpath.normpath] *)

Definition SLASH : char := 0x2F.

(** The body of the loop over the components. *)
Definition normpath_step (initial_slashes : N) (new_comps : list str)
  (comp : str) : list str :=
  if str_eqb comp [] || str_eqb comp (U ".") then new_comps
  else if negb (str_eqb comp (U ".."))
          || ((initial_slashes =? 0)
              && match new_comps with [] => true | _ => false end)
          || match new_comps with
             | [] => false
             | _ => str_eqb (List.last new_comps []) (U "..")
             end
  then new_comps ++ [comp]
  else match new_comps with
       | [] => new_comps
       | _ => removelast new_comps
       end.

Definition normpath (path : str) : str :=
  match path with
  | [] => U "."
  | _ =>
    let initial_slashes :=
      if startswith [SLASH] path then
        if startswith [SLASH; SLASH] path
           && negb (startswith [SLASH; SLASH; SLASH] path)
        then 2 else 1
      else 0 in
    let comps := split_chr SLASH path in
    let new_comps := fold_left (normpath_step initial_slashes) comps [] in
    let path := join [SLASH] new_comps in
    let path := repeat SLASH (N.to_nat initial_slashes) ++ path in
    match path with
    | [] => U "."
    | _ => path
    end
  end.

(** What the loop of [normpath] keeps: components that are not empty, not
    [.], and free of slashes. *)
Definition kept (comp : str) : Prop :=
  comp <> [] /\ comp <> U "." /\ ~ In SLASH comp.

(** ** [urllib.parse.unquote] and [urllib.parse.parse_qs] *)

Definition PERCENT : char := 0x25.

(** The value of a hexadecimal digit, of either case. *)
Definition hexval (c : char) : option N :=
  if (0x30 <=? c) && (c <=? 0x39) then Some (c - 0x30)
  else if (0x41 <=? c) && (c <=? 0x46) then Some (c - 0x41 + 10)
  else if (0x61 <=? c) && (c <=? 0x66) then Some (c - 0x61 + 10)
  else None.

(** One piece after a [%]: the octet its two leading hexadecimal digits
    name and the rest, or the piece as it was, [%] included. *)
Definition unquote_item (item : list N) : list N :=
  match item with
  | a :: b :: rest =>
      match hexval a, hexval b with
      | Some x, Some y => (16 * x + y) :: rest
      | _, _ => PERCENT :: item
      end
  | _ => PERCENT :: item
  end.

(** [unquote_to_bytes] on a run of ASCII characters (whose UTF-8 octets are
    their code points). *)
Definition unquote_to_bytes (s : str) : list N :=
  match split_chr PERCENT s with
  | [] => []
  | b0 :: items => b0 ++ concat (map unquote_item items)
  end.

(** The loop over the maximal ASCII runs: each is percent-decoded and read
    back as UTF-8 with errors replaced; what lies between is kept.  [run]
    holds the ASCII run being read, last character first. *)
Definition flush_run (run : str) : str :=
  match run with
  | [] => []
  | _ => decode_replace (unquote_to_bytes (rev run))
  end.

Fixpoint unquote_runs (run : str) (s : str) : str :=
  match s with
  | [] => flush_run run
  | c :: t =>
      if c <? 0x80 then unquote_runs (c :: run) t
      else flush_run run ++ c :: unquote_runs [] t
  end.

(** [unquote(string)] *)
Definition unquote (s : str) : str :=
  if negb (contains [PERCENT] s) then s
  else unquote_runs [] s.

(** [parse_qsl(qs)] with its defaults: blank values dropped, pieces without
    [=] dropped, [+] read as a space. *)
Definition parse_qsl (qs : str) : list (str * str) :=
  flat_map
    (fun name_value =>
       match name_value with
       | [] => []
       | _ =>
         match split_once (U "=") name_value with
         | [name; value] =>
             match value with
             | [] => []
             | _ => [(unquote (replace_chr 0x2B 0x20 name),
                      unquote (replace_chr 0x2B 0x20 value))]
             end
         | _ => []
         end
       end)
    (split_chr 0x26 qs).

(** A [dict] from [str] to lists of [str], in insertion order. *)
Definition dict := list (str * list str).

Fixpoint dict_append (d : dict) (name value : str) : dict :=
  match d with
  | [] => [(name, [value])]
  | (k, vs) :: d' =>
      if str_eqb k name then (k, vs ++ [value]) :: d'
      else (k, vs) :: dict_append d' name value
  end.

(** [parse_qs(qs)] *)
Definition parse_qs (qs : str) : dict :=
  fold_left (fun d nv => dict_append d (fst nv) (snd nv)) (parse_qsl qs) [].

End Py.

(* ===================================================================== *)
(** * The server: class [WebServer]                                       *)
(* ===================================================================== *)

Module Server.
Import Py.
Local Open Scope py_scope.

Definition CRLF : str := [0x0D; 0x0A].
Definition LF : char := 0x0A.

(** What the methods see of the machine they run on: [open(p, 'rb')]
    followed by [read()], which returns the content of the file or raises,
    and [mimetypes.guess_type(p)[0]]. *)
Record env := {
  open_rb : str -> E bytes;
  guess_type : str -> option str
}.

(** The methods return either a [str] or a [bytes] object. *)
Inductive response :=
| Text (s : str)
| Raw (b : bytes).

(** [create_response(status_code, status_text, content="")] *)
Definition create_response (status_code : N) (status_text : str)
  (content : str) : str :=
  let headers :=
    [ U "HTTP/1.1 " ++ str_of_int status_code ++ U " " ++ status_text;
      U "Content-Type: text/plain";
      U "Content-Length: " ++ str_of_int (len content) ] in
  join CRLF headers ++ CRLF ++ CRLF ++ content.

(** [try: body except FileNotFoundError: ... except PermissionError: ...] *)
Definition try_except {A} (body : E A) (handler : exn -> option (E A))
  : E A :=
  match body with
  | inr a => inr a
  | inl e => match handler e with
             | Some h => h
             | None => inl e
             end
  end.

(** [handle_get_request(path)] *)
Definition handle_get_request (w : env) (path : str) : E response :=
  let path := if str_eqb path (U "/") then U "/index.html" else path in
  let file_path := U "./www" ++ path in
  if negb (startswith (U "./www") (normpath file_path)) then
    ret (Text (create_response 403 (U "Forbidden") []))
  else
    try_except
      (content <- open_rb w file_path ;;
       let mime_type :=
         match guess_type w file_path with
         | None | Some [] => U "text/plain"
         | Some t => t
         end in
       let status := 200 in
       let status_text := U "OK" in
       let headers :=
         [ U "Content-Type: " ++ mime_type;
           U "Content-Length: " ++ str_of_int (len content) ] in
       let response :=
         (U "HTTP/1.1 " ++ str_of_int status ++ U " " ++ status_text ++ CRLF)
         ++ join CRLF headers
         ++ (CRLF ++ CRLF) in
       head <- encode response ;;
       ret (Raw (head ++ content)))
      (fun e =>
         match e with
         | FileNotFoundError =>
             Some (ret (Text (create_response 404 (U "Not Found") [])))
         | PermissionError =>
             Some (ret (Text (create_response 403 (U "Forbidden") [])))
         | _ => None
         end).

(** The loop [for key, value in form_data.items()] of
    [handle_post_request]. *)
Fixpoint form_lines (response_content : str) (items : dict) : E str :=
  match items with
  | [] => ret response_content
  | (key, value) :: rest =>
      v0 <- first value ;;
      form_lines (response_content ++ (key ++ U ": " ++ v0 ++ [LF])) rest
  end.

(** [handle_post_request(request, path)] *)
Definition handle_post_request (request path : str) : E response :=
  body <- last_item (split_once (CRLF ++ CRLF) request) ;;
  let form_data := parse_qs body in
  if str_eqb path (U "/submit") then
    response_content <-
      form_lines (U "Form submitted successfully!" ++ [LF]) form_data ;;
    ret (Text (create_response 200 (U "OK") response_content))
  else
    ret (Text (create_response 404 (U "Not Found") [])).

(** [method, path, _ = tokens]: [ValueError] unless there are three. *)
Definition unpack3 (tokens : list str) : E (str * str * str) :=
  match tokens with
  | [a; b; c] => ret (a, b, c)
  | _ => raise ValueError
  end.

(** [response.encode('utf-8')]: a [bytes] object has no [encode]. *)
Definition encode_response (r : response) : E bytes :=
  match r with
  | Text s => encode s
  | Raw _ => raise AttributeError
  end.

(** Lines 38 to 43 of [handle_client]: the method and the decoded path,
    without its query, of the request line. *)
Definition parse_request_line (request : str) : E (str * str) :=
  line <- first (split_chr LF request) ;;
  let request_line := strip line in
  mpv <- unpack3 (split_ws request_line) ;;
  let '(method, path, _) := mpv in
  before_query <- first (split_chr 0x3F path) ;;
  let path := unquote before_query in
  ret (method, path).

(** The body of the [try] of [handle_client], from the bytes [recv]
    returned to the bytes handed to [sendall]. *)
Definition respond (w : env) (data : bytes) : E bytes :=
  request <- decode data ;;
  mp <- parse_request_line request ;;
  let '(method, path) := mp in
  response <-
    (if str_eqb method (U "GET") then handle_get_request w path
     else if str_eqb method (U "POST") then handle_post_request request path
     else ret (Text (create_response 405 (U "Method Not Allowed") []))) ;;
  encode_response response.

(** ** The connection: socket and standard output as state *)

Inductive output_line :=
| ErrorHandlingClient (e : exn).

Record conn := {
  sent : list bytes;          (* the arguments of [sendall], in order *)
  closed : bool;              (* [close()] was called *)
  stdout : list output_line   (* what [print] wrote, in order *)
}.

Definition fresh : conn := {| sent := []; closed := false; stdout := [] |}.

(** A statement: from a connection state to the state it leaves and the
    exception it raises, if any. *)
Definition stmt := conn -> conn * option exn.

Definition sendall (b : bytes) : stmt :=
  fun c => ({| sent := sent c ++ [b]; closed := closed c;
               stdout := stdout c |}, None).

Definition close : stmt :=
  fun c => ({| sent := sent c; closed := true; stdout := stdout c |}, None).

Definition print (l : output_line) : stmt :=
  fun c => ({| sent := sent c; closed := closed c;
               stdout := stdout c ++ [l] |}, None).

(** [try: body except Exception as e: handler(e)] *)
Definition try_except_Exception (body : stmt) (handler : exn -> stmt)
  : stmt :=
  fun c =>
    match body c with
    | (c', Some e) => if is_Exception e then handler e c' else (c', Some e)
    | r => r
    end.

(** [try: body finally: final] *)
Definition try_finally (body final : stmt) : stmt :=
  fun c =>
    match body c with
    | (c', None) => final c'
    | (c', Some e) =>
        match final c' with
        | (c'', None) => (c'', Some e)
        | r => r
        end
    end.

(** [handle_client(client_socket)], where [data] is what the one call
    [client_socket.recv(1024)] returns: at most 1024 octets from the front
    of what the client sent.  The socket calls themselves are taken not to
    fail. *)
Definition handle_client (w : env) (data : bytes) : stmt :=
  try_finally
    (try_except_Exception
       (fun c =>
          match respond w data with
          | inr payload => sendall payload c
          | inl e => (c, Some e)
          end)
       (fun e => print (ErrorHandlingClient e)))
    close.

End Server.

(* ===================================================================== *)
(** * Reading a response off the wire                                     *)
(* ===================================================================== *)

Module Wire.
Import Py.

(** The octets before the first LF, and the octets after it. *)
Fixpoint cut_line (bs : bytes) : bytes * bytes :=
  match bs with
  | [] => ([], [])
  | b :: t =>
      if Byte.eqb b x0a then ([], t)
      else let (l, r) := cut_line t in (b :: l, r)
  end.

(** A line without the CR that ends it. *)
Definition chomp (l : bytes) : bytes :=
  match rev l with
  | x0d :: r => rev r
  | _ => l
  end.

(** The lines of the header block, up to the blank line, and the body that
    follows the blank line; [None] when there is no blank line.  [cur]
    holds the line being read, last octet first, and [acc] the lines read,
    last line first. *)
Fixpoint read_head (acc : list bytes) (cur : bytes) (bs : bytes)
  : option (list bytes * bytes) :=
  match bs with
  | [] => None
  | b :: t =>
      if Byte.eqb b x0a then
        match chomp (rev cur) with
        | [] => Some (rev acc, t)
        | l => read_head (l :: acc) [] t
        end
      else read_head acc (b :: cur) t
  end.

(** The characters of a line of the header block. *)
Definition text (l : bytes) : str := map Byte.to_N l.

(** A run of decimal digits as a number. *)
Fixpoint digits_from (acc : N) (ds : str) : option N :=
  match ds with
  | [] => Some acc
  | d :: t =>
      if (0x30 <=? d) && (d <=? 0x39)
      then digits_from (10 * acc + (d - 0x30)) t
      else None
  end.

Definition number (ds : str) : option N :=
  match ds with
  | [] => None
  | _ => digits_from 0 ds
  end.

(** The status code and the reason of a status line
    [HTTP/1.1 code reason]. *)
Definition read_status_line (l : str) : option (N * str) :=
  match split_chr 0x20 l with
  | _ :: code :: reason =>
      match number code with
      | Some n => Some (n, join [0x20] reason)
      | None => None
      end
  | _ => None
  end.

Definition status_of_line (l : str) : option N :=
  option_map fst (read_status_line l).

(** The status code on the first line of a serialized response. *)
Definition status_of (b : bytes) : option N :=
  status_of_line (text (chomp (fst (cut_line b)))).

(** The value of the first header called [name]. *)
Fixpoint header_value (name : str) (ls : list str) : option str :=
  match ls with
  | [] => None
  | l :: rest =>
      if startswith (name ++ U ": ") l
      then Some (skipn (List.length name + 2) l)
      else header_value name rest
  end.

Record message := {
  status : N;
  reason : str;
  content_length : N;
  body : bytes
}.

(** What a client reads from the octets [b]: the status code of the status
    line, the number in the Content-Length header, and the body. *)
Definition parse (b : bytes) : option message :=
  match read_head [] [] b with
  | Some (status_line :: headers, body) =>
      match read_status_line (text status_line),
            header_value (U "Content-Length") (map text headers) with
      | Some (code, reason), Some v =>
          match number v with
          | Some n => Some {| status := code; reason := reason;
                              content_length := n; body := body |}
          | None => None
          end
      | _, _ => None
      end
  | _ => None
  end.

End Wire.

(* ===================================================================== *)
(** * Sample machines and requests                                        *)
(* ===================================================================== *)

Module Sample.
Import Py Server.

(** The octets of an ASCII text. *)
Definition B (s : string) : bytes := list_byte_of_string s.

Definition crlf : string :=
  String (ascii_of_nat 13) (String (ascii_of_nat 10) EmptyString).
Definition lf : string := String (ascii_of_nat 10) EmptyString.

Definition index_html : bytes := B "<h1>Welcome to My Web Server!</h1>".

(** A machine whose [www] directory holds [index.html] and nothing else. *)
Definition www : env := {|
  open_rb := fun p =>
    if str_eqb p (U "./www/index.html") then ret index_html
    else raise FileNotFoundError;
  guess_type := fun p =>
    if str_eqb p (U "./www/index.html") then Some (U "text/html") else None
|}.

Definition get_index : bytes :=
  B ("GET /index.html HTTP/1.1" ++ crlf ++ "Host: localhost" ++ crlf ++ crlf).

Definition get_root : bytes :=
  B ("GET / HTTP/1.1" ++ crlf ++ "Host: localhost" ++ crlf ++ crlf).

Definition get_passwd : bytes :=
  B ("GET /../../etc/passwd HTTP/1.1" ++ crlf ++ crlf).

Definition put_index : bytes :=
  B ("PUT /index.html HTTP/1.1" ++ crlf ++ "Host: localhost" ++ crlf ++ crlf).

Definition post_head : string :=
  "POST /submit HTTP/1.1" ++ crlf ++ "Host: localhost".

Definition post_ada : bytes :=
  B (post_head ++ crlf ++ crlf ++ "name=Ada&name=Lovelace").

(** A form whose value is the percent-encoded letter U+00E9. *)
Definition post_e_acute : bytes :=
  B (post_head ++ crlf ++ crlf ++ "name=%C3%A9").

(** A form whose value is the euro sign U+20AC, sent as its three UTF-8
    octets. *)
Definition post_euro : bytes :=
  B (post_head ++ crlf ++ crlf ++ "price=") ++ [xe2; x82; xac].

Definition post_elsewhere : bytes :=
  B ("POST /other HTTP/1.1" ++ crlf ++ crlf ++ "name=Ada").

(** A POST whose text has no blank line. *)
Definition post_no_blank_line : bytes :=
  B ("POST /submit HTTP/1.1" ++ crlf ++ "a=1&b=2").

Definition two_tokens : bytes := B ("GET /index.html" ++ crlf ++ crlf).

Definition bad_utf8 : bytes := [xff; xfe].

(** Answers, octet by octet. *)
Definition forbidden : bytes :=
  B ("HTTP/1.1 403 Forbidden" ++ crlf ++ "Content-Type: text/plain" ++ crlf
     ++ "Content-Length: 0" ++ crlf ++ crlf).

Definition method_not_allowed : bytes :=
  B ("HTTP/1.1 405 Method Not Allowed" ++ crlf
     ++ "Content-Type: text/plain" ++ crlf
     ++ "Content-Length: 0" ++ crlf ++ crlf).

Definition ada_answer : bytes :=
  B ("HTTP/1.1 200 OK" ++ crlf ++ "Content-Type: text/plain" ++ crlf
     ++ "Content-Length: 39" ++ crlf ++ crlf
     ++ "Form submitted successfully!" ++ lf ++ "name: Ada" ++ lf).

(** Further answers and requests. *)
Definition not_found : bytes :=
  B ("HTTP/1.1 404 Not Found" ++ crlf ++ "Content-Type: text/plain" ++ crlf
     ++ "Content-Length: 0" ++ crlf ++ crlf).

Definition confirmation_answer : bytes :=
  B ("HTTP/1.1 200 OK" ++ crlf ++ "Content-Type: text/plain" ++ crlf
     ++ "Content-Length: 29" ++ crlf ++ crlf
     ++ "Form submitted successfully!" ++ lf).

Definition get_missing : bytes :=
  B ("GET /no-such-file.html HTTP/1.1" ++ crlf ++ crlf).

(** A form without an equals sign. *)
Definition post_words : bytes :=
  B (post_head ++ crlf ++ crlf ++ "hello&world").

(** A machine without any file. *)
Definition empty_disk : env := {|
  open_rb := fun _ => raise FileNotFoundError;
  guess_type := fun _ => None
|}.

End Sample.

(* ===================================================================== *)
(** * Vocabulary of the properties                                        *)
(* ===================================================================== *)

Module Vocab.
Import Py Server.

(** The candidate file path leaves the static root: normalized, it is
    neither [www] nor something under [www/]. *)
Definition escapes_root (file_path : str) : bool :=
  let n := normpath file_path in
  negb (str_eqb n (U "www") || startswith (U "www/") n).

(** The tokens of the request line. *)
Definition request_line_tokens (request : str) : list str :=
  split_ws (strip (hd [] (split_chr LF request))).

(** The received bytes are not UTF-8, or their request line does not have
    three tokens. *)
Definition malformed (data : bytes) : Prop :=
  match decode data with
  | inl _ => True
  | inr request => List.length (request_line_tokens request) <> 3%nat
  end.

(** The first value of every key, keys in the order of their first
    occurrence.  [seen] holds the keys met so far. *)
Definition seen_key (k : str) (seen : list str) : bool :=
  existsb (fun k' => str_eqb k' k) seen.

Fixpoint first_values_from (seen : list str) (pairs : list (str * str))
  : list (str * str) :=
  match pairs with
  | [] => []
  | (k, v) :: rest =>
      if seen_key k seen then first_values_from seen rest
      else (k, v) :: first_values_from (seen ++ [k]) rest
  end.

Definition first_values (pairs : list (str * str)) : list (str * str) :=
  first_values_from [] pairs.

(** One line [key: value] per pair. *)
Definition field_lines (pairs : list (str * str)) : str :=
  flat_map (fun kv => fst kv ++ U ": " ++ snd kv ++ [LF]) pairs.

(** The confirmation line. *)
Definition confirmation : str := U "Form submitted successfully!" ++ [LF].

(** The keys of a [dict] with the first value of each. *)
Definition heads (d : dict) : list (str * str) :=
  map (fun kv => (fst kv, hd [] (snd kv))) d.

(** Texts of ASCII characters, and decimal digits. *)
Definition ascii_text (s : str) : Prop := Forall (fun c => c < 0x80) s.

Definition digit (c : char) : Prop := 0x30 <= c /\ c <= 0x39.

(** Unicode scalar values: the code points that UTF-8 can carry. *)
Definition scalar (c : char) : Prop :=
  c < 0xD800 \/ (0xDFFF < c /\ c < 0x110000).

Definition scalar_text (s : str) : Prop := Forall scalar s.

Definition scalar_pair (kv : str * str) : Prop :=
  scalar_text (fst kv) /\ scalar_text (snd kv).

(** What the decoder read, where it read a character. *)
Definition scalar_item (o : option char) : Prop :=
  match o with
  | Some c => scalar c
  | None => True
  end.

(** A line of a header block: not empty, ASCII, without LF. *)
Definition header_char (c : char) : bool := (c <? 0x80) && negb (c =? 0x0A).

Definition header_line (l : str) : Prop :=
  l <> [] /\ Forall (fun c => header_char c = true) l.

(** The status codes and reasons that occur in the program. *)
Definition statuses : list (N * str) :=
  [(200, U "OK"); (403, U "Forbidden"); (404, U "Not Found");
   (405, U "Method Not Allowed")].

(** The connection after one answer at most, whose status code is among
    [codes]. *)
Definition answers_within (codes : list N) (before after : conn) : Prop :=
  sent after = sent before
  \/ exists payload code,
       sent after = sent before ++ [payload]
       /\ Wire.status_of payload = Some code
       /\ In code codes.

(** The connection after the answer [payload], closed, nothing printed. *)
Definition answered (before : conn) (payload : bytes) : conn :=
  {| sent := sent before ++ [payload]; closed := true;
     stdout := stdout before |}.

(** The connection after exception [e] was caught and printed, closed,
    nothing sent. *)
Definition dropped (before : conn) (e : exn) : conn :=
  {| sent := sent before; closed := true;
     stdout := stdout before ++ [ErrorHandlingClient e] |}.

(** ** Vocabulary of the further properties *)

(** White space, a gap between two tokens, and a token of a request
    line. *)
Definition blank (s : str) : Prop := Forall (fun c => isspace c = true) s.

Definition gap (s : str) : Prop := s <> [] /\ blank s.

Definition token (s : str) : Prop :=
  s <> [] /\ Forall (fun c => isspace c = false) s.

(** The text before the first [c]. *)
Fixpoint up_to (c : char) (s : str) : str :=
  match s with
  | [] => []
  | x :: t => if x =? c then [] else x :: up_to c t
  end.


(** Characters that a form carries as they are: none of [&], [=], [%]
    and [+]. *)
Definition plain_char (c : char) : bool :=
  negb ((c =? 0x26) || (c =? 0x3D) || (c =? 0x25) || (c =? 0x2B)).

Definition plain (s : str) : Prop := Forall (fun c => plain_char c = true) s.

Definition plain_field (kv : str * str) : Prop :=
  plain (fst kv) /\ plain (snd kv) /\ snd kv <> [].

(** The body of a form with the given fields: [key=value] joined by [&]. *)
Definition form_body (pairs : list (str * str)) : str :=
  join [0x26] (map (fun kv => fst kv ++ 0x3D :: snd kv) pairs).


End Vocab.

(* ===================================================================== *)
(** * Facts about the runtime model                                       *)
(* ===================================================================== *)

Section RuntimeFacts.
Import Py.

Lemma str_eqb_refl (a : str) : str_eqb a a = true.
Proof.
  induction a as [|x a IH]; simpl; [reflexivity|].
  now rewrite N.eqb_refl, IH.
Qed.

Lemma str_eqb_eq (a b : str) : str_eqb a b = true <-> a = b.
Proof.
  split.
  - revert b; induction a as [|x a IH]; intros [|y b] H; simpl in H;
      try discriminate; [reflexivity|].
    apply andb_true_iff in H as [Hx Hr].
    apply N.eqb_eq in Hx. apply IH in Hr. now subst.
  - intros ->. apply str_eqb_refl.
Qed.

Lemma str_eqb_neq (a b : str) : a <> b -> str_eqb a b = false.
Proof.
  intros H. destruct (str_eqb a b) eqn:Heq; [|reflexivity].
  apply str_eqb_eq in Heq. contradiction.
Qed.

(** A prefix of a prefix. *)
Lemma startswith_app (p q s : str) :
  startswith (p ++ q) s = true -> startswith p s = true.
Proof.
  revert s; induction p as [|x p IH]; intros s H; [reflexivity|].
  destruct s as [|y s]; simpl in *; [discriminate|].
  apply andb_true_iff in H as [Hx Hr].
  rewrite Hx. simpl. now apply IH.
Qed.

Lemma startswith_self_app (p s : str) : startswith p (p ++ s) = true.
Proof.
  induction p as [|x p IH]; simpl; [reflexivity|].
  now rewrite N.eqb_refl.
Qed.

(** [s.startswith(p)] says that [s] is [p] followed by something. *)
Lemma startswith_spec (p s : str) :
  startswith p s = true <-> exists r, s = p ++ r.
Proof.
  split.
  - revert s; induction p as [|x p IH]; intros s H.
    + now exists s.
    + destruct s as [|y s]; simpl in H; [discriminate|].
      apply andb_true_iff in H as [Hx Hr].
      apply N.eqb_eq in Hx. destruct (IH _ Hr) as [r ->].
      exists r. now subst.
  - intros [r ->]. apply startswith_self_app.
Qed.

(** [s.split(c)] returns at least one piece, and no piece holds [c]. *)
Lemma split_chr_not_nil (c : char) (s : str) : split_chr c s <> [].
Proof.
  destruct s as [|x t]; simpl; [discriminate|].
  destruct (x =? c); [discriminate|].
  destruct (split_chr c t); discriminate.
Qed.

Lemma split_chr_no_sep (c : char) (s : str) :
  Forall (fun piece => ~ In c piece) (split_chr c s).
Proof.
  induction s as [|x t IH]; simpl.
  - constructor; [intros []|constructor].
  - destruct (x =? c) eqn:Hx.
    + constructor; [intros []|exact IH].
    + destruct (split_chr c t) as [|h r].
      * constructor; [|constructor].
        intros [->|[]]. now rewrite N.eqb_refl in Hx.
      * inversion IH as [|? ? Hh Hr]; subst.
        constructor; [|exact Hr].
        intros [->|Hin]; [now rewrite N.eqb_refl in Hx|now apply Hh].
Qed.


(** ** [in], [partition] and [split] with a limit *)

Lemma contains_spec (sub s : str) :
  contains sub s = true <-> exists a b, s = a ++ sub ++ b.
Proof.
  split.
  - induction s as [|x t IH]; intros H.
    + simpl in H. rewrite orb_false_r in H.
      destruct sub; [|discriminate]. now exists [], [].
    + cbn [contains] in H. apply orb_true_iff in H as [H|H].
      * apply startswith_spec in H as [r Hr]. now exists [], r.
      * destruct (IH H) as (a & b & ->). now exists (x :: a), b.
  - intros (a & b & ->). induction a as [|x a IH].
    + simpl app. destruct (sub ++ b) eqn:E; cbn [contains];
        rewrite <- E, startswith_self_app; reflexivity.
    + cbn [app contains]. rewrite IH. apply orb_true_r.
Qed.

Lemma contains_cons_false (sub : str) x t :
  contains sub (x :: t) = false ->
  startswith sub (x :: t) = false /\ contains sub t = false.
Proof. cbn [contains]. apply orb_false_iff. Qed.

Lemma partition_cons (sep : str) x t :
  partition sep (x :: t) =
    if startswith sep (x :: t)
    then ([], Some (skipn (List.length sep) (x :: t)))
    else let (h, r) := partition sep t in (x :: h, r).
Proof. reflexivity. Qed.

(** Without an occurrence of the separator the text stays whole. *)
Lemma partition_absent (sep s : str) :
  contains sep s = false -> partition sep s = (s, None).
Proof.
  induction s as [|x t IH]; intros H; [reflexivity|].
  apply contains_cons_false in H as [Hs Ht].
  rewrite partition_cons, Hs, (IH Ht). reflexivity.
Qed.

Lemma startswith_shorter (p u v : str) :
  startswith p (u ++ v) = true ->
  (List.length p <= List.length u)%nat ->
  startswith p u = true.
Proof.
  revert u; induction p as [|a p IH]; intros u H Hl; [reflexivity|].
  destruct u as [|b u]; [simpl in Hl; lia|].
  cbn [app startswith] in *.
  apply andb_true_iff in H as [Hab Hr]. rewrite Hab. cbn [andb].
  apply IH; [assumption|simpl in Hl; lia].
Qed.

Lemma skipn_length_app {A} (l r : list A) :
  skipn (List.length l) (l ++ r) = r.
Proof. induction l; simpl; auto. Qed.

(** The text is cut at the first occurrence of the separator: the
    occurrence before which no other one begins. *)
Lemma partition_first (sep head body : str) :
  sep <> [] ->
  contains sep (head ++ removelast sep) = false ->
  partition sep (head ++ sep ++ body) = (head, Some body).
Proof.
  intros Hne. induction head as [|x h IH]; intros H.
  - destruct sep as [|a sep']; [contradiction|].
    change ([] ++ (a :: sep') ++ body) with (a :: (sep' ++ body)).
    rewrite partition_cons.
    change (a :: sep' ++ body) with ((a :: sep') ++ body).
    now rewrite startswith_self_app, skipn_length_app.
  - cbn [app] in *. apply contains_cons_false in H as [Hs Ht].
    rewrite partition_cons.
    assert (Hf : startswith sep (x :: h ++ sep ++ body) = false).
    { destruct (startswith sep (x :: h ++ sep ++ body)) eqn:E;
        [|reflexivity].
      rewrite <- Hs. symmetry.
      apply startswith_shorter with (v := [List.last sep 0] ++ body).
      - rewrite <- E. f_equal. cbn [app]. f_equal.
        rewrite (app_removelast_last 0 Hne) at 3.
        now rewrite <- !app_assoc.
      - rewrite (app_removelast_last 0 Hne) at 1.
        cbn [List.length]. rewrite !length_app. cbn [List.length].
        unfold str, char in *. lia. }
    now rewrite Hf, (IH Ht).
Qed.

Lemma last_item_split_absent (sep s : str) :
  contains sep s = false ->
  last_item (split_once sep s) = inr s.
Proof.
  intros H. unfold split_once. now rewrite (partition_absent _ _ H).
Qed.

Lemma last_item_split_first (sep head body : str) :
  sep <> [] ->
  contains sep (head ++ removelast sep) = false ->
  last_item (split_once sep (head ++ sep ++ body)) = inr body.
Proof.
  intros Hne H. unfold split_once. now rewrite (partition_first _ _ _ Hne H).
Qed.

(** ** The [dict] that [parse_qs] builds *)

Lemma dict_append_values (d : dict) (name value : str) :
  Forall (fun kv => snd kv <> []) d ->
  Forall (fun kv => snd kv <> []) (dict_append d name value).
Proof.
  induction d as [|[k vs] d IH]; intros H; simpl.
  - constructor; [discriminate|constructor].
  - inversion H; subst. destruct (str_eqb k name).
    + constructor; [|assumption]. simpl. now destruct vs.
    + constructor; [assumption|now apply IH].
Qed.

Lemma dict_append_keys (d : dict) (name value : str) :
  map fst (dict_append d name value) =
    if Vocab.seen_key name (map fst d) then map fst d
    else map fst d ++ [name].
Proof.
  induction d as [|[k vs] d IH]; simpl; [reflexivity|].
  destruct (str_eqb k name); simpl; [reflexivity|].
  rewrite IH. unfold Vocab.seen_key. now destruct (existsb _ _).
Qed.

Lemma dict_append_heads (d : dict) (name value : str) :
  Forall (fun kv => snd kv <> []) d ->
  Vocab.heads (dict_append d name value) =
    if Vocab.seen_key name (map fst d) then Vocab.heads d
    else Vocab.heads d ++ [(name, value)].
Proof.
  induction d as [|[k vs] d IH]; intros H; simpl; [reflexivity|].
  inversion H as [|? ? Hvs Hd]; subst. simpl in Hvs.
  destruct (str_eqb k name); simpl.
  - destruct vs; [contradiction|reflexivity].
  - rewrite (IH Hd). unfold Vocab.seen_key. now destruct (existsb _ _).
Qed.

Lemma parse_qs_loop (pairs : list (str * str)) (d : dict) :
  Forall (fun kv => snd kv <> []) d ->
  let d' := fold_left (fun d nv => dict_append d (fst nv) (snd nv)) pairs d
  in Forall (fun kv => snd kv <> []) d'
     /\ Vocab.heads d' =
          Vocab.heads d ++ Vocab.first_values_from (map fst d) pairs.
Proof.
  revert d; induction pairs as [|[n v] pairs IH]; intros d H; cbn zeta.
  - split; [assumption|]. simpl. now rewrite app_nil_r.
  - cbn [fold_left fst snd].
    destruct (IH (dict_append d n v) (dict_append_values _ _ _ H))
      as [Hv Hh].
    split; [exact Hv|]. cbv zeta in Hh. rewrite Hh.
    rewrite dict_append_heads, dict_append_keys by assumption.
    cbn [Vocab.first_values_from].
    destruct (Vocab.seen_key n (map fst d)); [reflexivity|].
    now rewrite <- app_assoc.
Qed.

(** [parse_qs] keeps every key once, where it first occurred, and the
    value it had there comes first in its list, which is never empty. *)
Lemma parse_qs_heads (qs : str) :
  Forall (fun kv => snd kv <> []) (parse_qs qs)
  /\ Vocab.heads (parse_qs qs) = Vocab.first_values (parse_qsl qs).
Proof. apply (parse_qs_loop (parse_qsl qs) []). constructor. Qed.

(** ** [normpath] of a relative path never begins with [./] *)

Lemma Forall_removelast {A} (P : A -> Prop) (l : list A) :
  Forall P l -> Forall P (removelast l).
Proof.
  induction l as [|x l IH]; intros H; simpl; [constructor|].
  inversion H; subst.
  destruct l; [constructor|].
  constructor; [assumption|now apply IH].
Qed.

Lemma normpath_step_kept (i : N) (new_comps : list str) (comp : str) :
  ~ In SLASH comp ->
  Forall kept new_comps ->
  Forall kept (normpath_step i new_comps comp).
Proof.
  intros Hs Hk. unfold normpath_step.
  destruct (str_eqb comp []) eqn:He; [exact Hk|].
  destruct (str_eqb comp (U ".")) eqn:Hd; [exact Hk|].
  cbn [orb].
  match goal with |- Forall _ (if ?b then _ else _) => destruct b end.
  - apply Forall_app; split; [exact Hk|].
    constructor; [|constructor].
    repeat split; try assumption.
    + intros ->. now rewrite str_eqb_refl in He.
    + intros ->. now rewrite str_eqb_refl in Hd.
  - destruct new_comps; [exact Hk|]. now apply Forall_removelast.
Qed.

Lemma normpath_loop_kept (i : N) (comps new_comps : list str) :
  Forall (fun comp => ~ In SLASH comp) comps ->
  Forall kept new_comps ->
  Forall kept (fold_left (normpath_step i) comps new_comps).
Proof.
  revert new_comps; induction comps as [|c comps IH]; intros nc Hc Hk;
    simpl; [exact Hk|].
  inversion Hc; subst.
  apply IH; [assumption|]. now apply normpath_step_kept.
Qed.

Lemma join_kept_no_dot_slash (comps : list str) :
  Forall kept comps ->
  startswith (U "./") (join [SLASH] comps) = false.
Proof.
  intros H. destruct comps as [|c rest]; [reflexivity|].
  inversion H as [|? ? [Hne [Hnd Hns]] _]; subst.
  change (U "./") with [0x2E; SLASH].
  destruct c as [|x [|y c]]; [contradiction| |].
  - (* a component of one character, which is not a dot *)
    assert (Hx : (0x2E =? x) = false).
    { apply N.eqb_neq. intros <-. now apply Hnd. }
    destruct rest; cbn [join app startswith]; now rewrite Hx.
  - (* two characters or more: the second is not a slash *)
    assert (Hy : (SLASH =? y) = false).
    { apply N.eqb_neq. intros <-. apply Hns. right. now left. }
    destruct rest; cbn [join app startswith]; rewrite Hy;
      now rewrite andb_false_r.
Qed.

Lemma normpath_relative (path : str) :
  startswith [SLASH] path = false ->
  startswith (U "./") (normpath path) = false.
Proof.
  intros Hrel. unfold normpath.
  destruct path as [|x t]; [reflexivity|].
  rewrite Hrel. cbv zeta.
  change (repeat SLASH (N.to_nat 0)) with (@nil char).
  rewrite app_nil_l.
  pose proof (normpath_loop_kept 0 (split_chr SLASH (x :: t)) []
                (split_chr_no_sep _ _) (Forall_nil _)) as Hk.
  apply join_kept_no_dot_slash in Hk.
  destruct (join [SLASH] _); [reflexivity|exact Hk].
Qed.

(** The test of [handle_get_request] fails for every request path. *)
Lemma normpath_www_never_dot_slash (path : str) :
  startswith (U "./www") (normpath (U "./www" ++ path)) = false.
Proof.
  destruct (startswith (U "./www") (normpath (U "./www" ++ path))) eqn:H;
    [|reflexivity].
  change (U "./www") with (U "./" ++ U "www") in H at 1.
  apply startswith_app in H.
  now rewrite normpath_relative in H.
Qed.

End RuntimeFacts.

(* ===================================================================== *)
(** * The connection handler                                              *)
(* ===================================================================== *)

Section HandlerFacts.
Import Py Server Vocab.

(** The three ways [handle_client] can end. *)
Lemma handle_client_answers w data c payload :
  respond w data = inr payload ->
  handle_client w data c = (answered c payload, None).
Proof.
  intros H. unfold handle_client, try_finally, try_except_Exception.
  now rewrite H.
Qed.

Lemma handle_client_catches w data c e :
  respond w data = inl e ->
  is_Exception e = true ->
  handle_client w data c = (dropped c e, None).
Proof.
  intros H He. unfold handle_client, try_finally, try_except_Exception.
  now rewrite H, He.
Qed.

Lemma handle_client_lets_through w data c e :
  respond w data = inl e ->
  is_Exception e = false ->
  handle_client w data c =
    ({| sent := sent c; closed := true; stdout := stdout c |}, Some e).
Proof.
  intros H He. unfold handle_client, try_finally, try_except_Exception.
  now rewrite H, He.
Qed.

Lemma strict_raises items e :
  strict items = inl e -> e = UnicodeDecodeError.
Proof.
  induction items as [|[c|] t IH]; simpl; intros H.
  - discriminate.
  - destruct (strict t); [|discriminate].
    inversion H; subst. now apply IH.
  - now inversion H.
Qed.

Lemma decode_raises data e : decode data = inl e -> e = UnicodeDecodeError.
Proof. apply strict_raises. Qed.

(** The guard of [handle_get_request] turns every path away, before the
    file system is looked at. *)
Lemma handle_get_request_forbidden w path :
  handle_get_request w path =
    ret (Text (create_response 403 (U "Forbidden") [])).
Proof.
  unfold handle_get_request. cbv zeta.
  now rewrite normpath_www_never_dot_slash.
Qed.

Lemma get_root_is_get_index w :
  handle_get_request w (U "/") = handle_get_request w (U "/index.html").
Proof. reflexivity. Qed.

(** The loop of [handle_post_request] never fails on what [parse_qs]
    built, and writes one line per key. *)
Lemma form_lines_heads (d : dict) (acc : str) :
  Forall (fun kv => snd kv <> []) d ->
  form_lines acc d = inr (acc ++ field_lines (heads d)).
Proof.
  revert acc; induction d as [|[key value] d IH]; intros acc H.
  - simpl. now rewrite app_nil_r.
  - inversion H as [|? ? Hv Hd]; subst. simpl in Hv.
    destruct value as [|v0 vs]; [contradiction|].
    cbn [form_lines first bind ret]. rewrite (IH _ Hd).
    unfold field_lines. cbn [heads map flat_map fst snd hd].
    now rewrite <- app_assoc.
Qed.

Lemma handle_post_request_submit (request body : str) :
  last_item (split_once (CRLF ++ CRLF) request) = inr body ->
  handle_post_request request (U "/submit") =
    ret (Text (create_response 200 (U "OK")
                 (confirmation
                  ++ field_lines (first_values (parse_qsl body))))).
Proof.
  intros H. unfold handle_post_request. rewrite H. cbn [bind].
  rewrite str_eqb_refl.
  destruct (parse_qs_heads body) as [Hv Hh].
  rewrite (form_lines_heads _ _ Hv), Hh. reflexivity.
Qed.

Lemma handle_post_request_elsewhere (request body path : str) :
  last_item (split_once (CRLF ++ CRLF) request) = inr body ->
  str_eqb path (U "/submit") = false ->
  handle_post_request request path =
    ret (Text (create_response 404 (U "Not Found") [])).
Proof.
  intros H Hp. unfold handle_post_request. rewrite H. cbn [bind].
  now rewrite Hp.
Qed.

(** [encode] goes through a concatenation piece by piece. *)
Lemma encode_app_inv a b payload :
  encode (a ++ b) = inr payload ->
  exists pa pb, encode a = inr pa /\ encode b = inr pb /\ payload = pa ++ pb.
Proof.
  revert payload; induction a as [|x a IH]; intros payload H.
  - exists [], payload. now repeat split.
  - simpl in H. destruct (encode_char x) as [e|bx] eqn:Hx; [discriminate|].
    simpl in H. destruct (encode (a ++ b)) as [e|r] eqn:Hr; [discriminate|].
    simpl in H. inversion H; subst.
    destruct (IH r eq_refl) as (pa & pb & Ha & Hb & ->).
    exists (bx ++ pa), pb. simpl. rewrite Hx, Ha. simpl.
    now rewrite app_assoc.
Qed.

(** The status line stands first in what [create_response] builds. *)
Lemma create_response_status_line code reason content :
  create_response code reason content =
    (U "HTTP/1.1 " ++ str_of_int code ++ U " " ++ reason ++ CRLF)
    ++ (U "Content-Type: text/plain" ++ CRLF
        ++ (U "Content-Length: " ++ str_of_int (len content))
        ++ CRLF ++ CRLF ++ content).
Proof.
  unfold create_response. cbn [join].
  now repeat rewrite <- app_assoc.
Qed.

(** The four status lines of the program, read back from the octets. *)
Lemma status_of_create_response code reason content payload :
  In (code, reason) statuses ->
  encode (create_response code reason content) = inr payload ->
  Wire.status_of payload = Some code.
Proof.
  intros Hin H. rewrite create_response_status_line in H.
  apply encode_app_inv in H as (pa & pb & Ha & _ & ->).
  destruct Hin as [E|[E|[E|[E|[]]]]]; inversion E; subst;
    vm_compute in Ha; inversion Ha; subst; reflexivity.
Qed.

Lemma respond_status w data payload :
  respond w data = inr payload ->
  exists code, Wire.status_of payload = Some code
               /\ In code [200; 403; 404; 405].
Proof.
  unfold respond. intros H.
  destruct (decode data) as [e|request]; [discriminate|].
  cbn [bind] in H.
  destruct (parse_request_line request) as [e|[method path]];
    [discriminate|].
  cbn [bind] in H.
  destruct (str_eqb method (U "GET")).
  { rewrite handle_get_request_forbidden in H.
    cbn [bind ret encode_response] in H.
    exists 403. split; [|simpl; tauto].
    eapply status_of_create_response; [|exact H]. unfold statuses; simpl; tauto. }
  destruct (str_eqb method (U "POST")).
  { unfold handle_post_request in H.
    destruct (last_item _) as [e|body]; [discriminate|].
    cbn [bind] in H.
    destruct (str_eqb path (U "/submit")).
    - destruct (form_lines _ _) as [e|content]; [discriminate|].
      cbn [bind ret encode_response] in H.
      exists 200. split; [|simpl; tauto].
      eapply status_of_create_response; [|exact H]. unfold statuses; simpl; tauto.
    - cbn [bind ret encode_response] in H.
      exists 404. split; [|simpl; tauto].
      eapply status_of_create_response; [|exact H]. unfold statuses; simpl; tauto. }
  cbn [bind ret encode_response] in H.
  exists 405. split; [|simpl; tauto].
  eapply status_of_create_response; [|exact H]. unfold statuses; simpl; tauto.
Qed.

End HandlerFacts.

(* ===================================================================== *)
(** * Texts that can be encoded                                           *)
(* ===================================================================== *)

Section ScalarFacts.
Import Py Server Vocab.

(** Turns the outcome of every comparison in sight into a hypothesis. *)
Ltac split_tests :=
  repeat match goal with
         | |- context [?a <? ?b] =>
             destruct (N.ltb_spec a b)
         | |- context [?a <=? ?b] =>
             destruct (N.leb_spec a b)
         | |- context [?a =? ?b] =>
             destruct (N.eqb_spec a b)
         end.



Lemma scan_utf8_scalar bs : Forall scalar_item (scan_utf8 bs).
Proof.
  remember (List.length bs) as n eqn:Hn.
  assert (Hle : (List.length bs <= n)%nat) by lia. clear Hn.
  revert bs Hle. induction n as [|n IH]; intros bs Hle.
  { destruct bs; [constructor|simpl in Hle; lia]. }
  destruct bs as [|b0 t0]; [constructor|].
  cbn [List.length] in Hle.
  assert (IH0 : Forall scalar_item (scan_utf8 t0)) by (apply IH; lia).
  assert (IH1 : forall b1 t1, t0 = b1 :: t1 ->
                 Forall scalar_item (scan_utf8 t1)).
  { intros b1 t1 ->. apply IH. cbn [List.length] in Hle. lia. }
  assert (IH2 : forall b1 b2 t2, t0 = b1 :: b2 :: t2 ->
                 Forall scalar_item (scan_utf8 t2)).
  { intros b1 b2 t2 ->. apply IH. cbn [List.length] in Hle. lia. }
  assert (IH3 : forall b1 b2 b3 t3, t0 = b1 :: b2 :: b3 :: t3 ->
                 Forall scalar_item (scan_utf8 t3)).
  { intros b1 b2 b3 t3 ->. apply IH. cbn [List.length] in Hle. lia. }
  clear IH Hle.
  cbn [scan_utf8]. unfold is_cont.
  destruct t0 as [|b1 [|b2 [|b3 t3]]];
    try specialize (IH1 _ _ eq_refl);
    try specialize (IH2 _ _ _ eq_refl);
    try specialize (IH3 _ _ _ _ eq_refl);
    split_tests; cbn [andb orb negb];
    repeat first [assumption | apply Forall_nil | apply Forall_cons];
    cbn [scalar_item]; try exact I; unfold scalar; lia.
Qed.

Lemma strict_scalar items s :
  Forall scalar_item items -> strict items = inr s -> scalar_text s.
Proof.
  intros H; revert s; induction H as [|[c|] items Hc _ IH]; intros s Hs;
    cbn [strict] in Hs.
  - inversion Hs. constructor.
  - destruct (strict items) as [e|r]; [discriminate|].
    inversion Hs; subst. constructor; [exact Hc|now apply IH].
  - discriminate.
Qed.

(** Both ways of decoding give texts of scalar values. *)
Lemma decode_scalar data s : decode data = inr s -> scalar_text s.
Proof. apply strict_scalar, scan_utf8_scalar. Qed.

Lemma decode_replace_scalar octets : scalar_text (decode_replace octets).
Proof.
  unfold decode_replace, replace_errors, scalar_text.
  pose proof (scan_utf8_scalar octets) as H.
  induction H as [|[c|] items Hc _ IH]; cbn [map]; constructor;
    try assumption.
  unfold scalar. lia.
Qed.

(** The pieces that the string operations cut are made of characters of
    the text they cut. *)
Section Pieces.
Variable P : char -> Prop.

Lemma split_chr_pieces c s :
  Forall P s -> Forall (Forall P) (split_chr c s).
Proof.
  induction 1 as [|x t Hx _ IH]; cbn [split_chr].
  - repeat constructor.
  - destruct (x =? c); [constructor; [constructor|exact IH]|].
    destruct (split_chr c t) as [|h r]; [repeat constructor; exact Hx|].
    inversion IH; subst. constructor; [|assumption].
    now constructor.
Qed.

Lemma skipn_pieces n s : Forall P s -> Forall P (skipn n s).
Proof.
  intros H; revert n; induction H; intros [|n]; cbn [skipn];
    try constructor; auto.
Qed.

Lemma partition_pieces sep s :
  Forall P s ->
  Forall P (fst (partition sep s))
  /\ forall r, snd (partition sep s) = Some r -> Forall P r.
Proof.
  induction 1 as [|x t Hx Ht [IH1 IH2]].
  - split; [constructor|discriminate].
  - rewrite partition_cons. destruct (startswith sep (x :: t)).
    + split; [constructor|]. intros r Hr. inversion Hr; subst.
      apply skipn_pieces. now constructor.
    + destruct (partition sep t) as [h r]. cbn [fst snd] in *.
      split; [now constructor|exact IH2].
Qed.

Lemma split_once_pieces sep s :
  Forall P s -> Forall (Forall P) (split_once sep s).
Proof.
  intros H. unfold split_once.
  destruct (partition_pieces sep s H) as [H1 H2].
  destruct (partition sep s) as [h [r|]]; cbn [fst snd] in *;
    repeat constructor; auto.
Qed.

Lemma last_item_pieces {A} (Q : A -> Prop) (l : list A) x :
  Forall Q l -> last_item l = inr x -> Q x.
Proof.
  induction 1 as [|y l Hy Hl IH]; cbn [last_item]; [discriminate|].
  destruct l; [now inversion 1; subst|exact IH].
Qed.

End Pieces.

Lemma last_item_split_once sep s : exists piece,
  last_item (split_once sep s) = inr piece.
Proof.
  unfold split_once. destruct (partition sep s) as [h [r|]];
    eexists; reflexivity.
Qed.

Lemma unquote_runs_scalar run s :
  scalar_text s -> scalar_text (unquote_runs run s).
Proof.
  assert (Hf : forall r, scalar_text (flush_run r)).
  { intros [|x r]; [constructor|apply decode_replace_scalar]. }
  intros H; revert run; induction H as [|c t Hc _ IH]; intros run;
    cbn [unquote_runs]; [apply Hf|].
  destruct (c <? 0x80); [apply IH|].
  apply Forall_app. split; [apply Hf|]. constructor; [exact Hc|apply IH].
Qed.

Lemma unquote_scalar s : scalar_text s -> scalar_text (unquote s).
Proof.
  intros H. unfold unquote. destruct (negb _); [exact H|].
  now apply unquote_runs_scalar.
Qed.

Lemma replace_chr_scalar a b s :
  scalar b -> scalar_text s -> scalar_text (replace_chr a b s).
Proof.
  intros Hb H. unfold replace_chr, scalar_text.
  induction H; cbn [map]; constructor; [|assumption].
  now destruct (_ =? _).
Qed.

Lemma parse_qsl_scalar qs :
  scalar_text qs -> Forall scalar_pair (parse_qsl qs).
Proof.
  intros H. unfold parse_qsl.
  pose proof (split_chr_pieces scalar 0x26 qs H) as Hp.
  induction Hp as [|nv rest Hnv _ IH]; cbn [flat_map]; [constructor|].
  apply Forall_app. split; [|exact IH].
  destruct nv as [|x nv']; [constructor|].
  pose proof (split_once_pieces scalar (U "=") _ Hnv) as Hs.
  destruct (split_once (U "=") (x :: nv')) as [|name [|value [|? ?]]];
    try constructor.
  inversion Hs as [|? ? Hn Hs']; subst. inversion Hs' as [|? ? Hv _]; subst.
  destruct value; constructor; [|constructor].
  assert (Hsp : scalar 0x20) by (unfold scalar; lia).
  split; cbn [fst snd]; apply unquote_scalar, replace_chr_scalar; assumption.
Qed.

Lemma first_values_scalar pairs :
  Forall scalar_pair pairs -> Forall scalar_pair (first_values pairs).
Proof.
  unfold first_values. generalize (@nil str) as seen.
  intros seen H; revert seen; induction H as [|[k v] rest Hkv _ IH];
    intros seen; cbn [first_values_from]; [constructor|].
  destruct (seen_key k seen); [apply IH|].
  constructor; [exact Hkv|apply IH].
Qed.

Lemma field_lines_scalar pairs :
  Forall scalar_pair pairs -> scalar_text (field_lines pairs).
Proof.
  unfold field_lines, scalar_text.
  induction 1 as [|[k v] rest [Hk Hv] _ IH]; cbn [flat_map fst snd];
    [constructor|].
  cbn [fst snd] in *.
  repeat (apply Forall_app; split); try assumption;
    repeat constructor; unfold scalar; lia.
Qed.

End ScalarFacts.

(* ===================================================================== *)
(** * What a client reads back                                            *)
(* ===================================================================== *)

Section WireFacts.
Import Py Server Vocab.

Lemma to_N_octet c : c <= 255 -> Byte.to_N (octet c) = c.
Proof.
  intros H. unfold octet. destruct (Byte.of_N c) as [b|] eqn:E.
  - now apply Byte.to_of_N.
  - apply Byte.of_N_None_iff in E. lia.
Qed.

Lemma ascii_text_check s :
  forallb (fun c => c <? 0x80) s = true -> ascii_text s.
Proof.
  intros H. apply Forall_forall. intros c Hc. apply N.ltb_lt.
  revert c Hc. now apply forallb_forall.
Qed.

(** ASCII text is encoded character by character. *)
Lemma encode_ascii s : ascii_text s -> encode s = inr (map octet s).
Proof.
  induction 1 as [|c s Hc _ IH]; [reflexivity|].
  cbn [encode map]. unfold encode_char.
  apply N.ltb_lt in Hc. rewrite Hc. cbn [bind ret]. now rewrite IH.
Qed.

Lemma text_octets s : ascii_text s -> Wire.text (map octet s) = s.
Proof.
  induction 1 as [|c s Hc _ IH]; [reflexivity|].
  unfold Wire.text in *. cbn [map]. rewrite IH, to_N_octet; [reflexivity|].
  lia.
Qed.

Lemma encode_ascii_app a b payload :
  ascii_text a ->
  encode (a ++ b) = inr payload ->
  exists pb, encode b = inr pb /\ payload = map octet a ++ pb.
Proof.
  intros Ha H. apply encode_app_inv in H as (pa & pb & Hpa & Hpb & ->).
  rewrite (encode_ascii _ Ha) in Hpa. inversion Hpa; subst.
  now exists pb.
Qed.

(** Every character takes at least one octet, an ASCII character exactly
    one. *)
Lemma encode_length s b :
  encode s = inr b -> len s <= len b.
Proof.
  unfold len. revert b; induction s as [|c s IH]; intros b H.
  - inversion H. reflexivity.
  - cbn [encode] in H.
    destruct (encode_char c) as [e|bc] eqn:Hc; [discriminate|].
    cbn [bind] in H. destruct (encode s) as [e|r]; [discriminate|].
    cbn [bind ret] in H. inversion H; subst.
    specialize (IH r eq_refl). rewrite length_app. cbn [List.length].
    assert (1 <= List.length bc)%nat; [|lia].
    unfold encode_char in Hc.
    repeat match type of Hc with
           | (if ?c then _ else _) = _ => destruct c
           end; inversion Hc; simpl; lia.
Qed.

Lemma encode_length_ascii s b :
  ascii_text s -> encode s = inr b -> len b = len s.
Proof.
  intros Hs H. rewrite (encode_ascii _ Hs) in H. inversion H; subst.
  unfold len. now rewrite length_map.
Qed.

(** ** Decimal numbers *)

Lemma digits_of_uint d :
  Forall digit (U (NilEmpty.string_of_uint d)).
Proof.
  induction d; cbn; constructor; try assumption; unfold digit; lia.
Qed.

Lemma digits_from_uint d acc :
  Wire.digits_from acc (U (NilEmpty.string_of_uint d)) =
    Some (DecimalPos.Unsigned.of_lu (Decimal.rev d)
          + acc * 10 ^ DecimalPos.Unsigned.usize d).
Proof.
  revert acc; induction d; intros acc;
    [cbn; f_equal; ring | ..];
    (cbn [NilEmpty.string_of_uint];
     unfold U; cbn [list_ascii_of_string map];
     fold (U (NilEmpty.string_of_uint d));
     cbn [Wire.digits_from];
     match goal with
     | |- (if ?b then _ else _) = _ => change b with true; cbv iota
     end;
     rewrite IHd;
     match goal with
     | |- context [Decimal.rev (?c d)] =>
         change (Decimal.rev (c d)) with (Decimal.revapp d (c Decimal.Nil))
     end;
     rewrite DecimalPos.Unsigned.of_lu_revapp;
     cbn [DecimalPos.Unsigned.of_lu DecimalPos.Unsigned.usize];
     rewrite N.pow_succ_r';
     match goal with
     | |- context [N_of_ascii ?a - 48] =>
         let v := eval vm_compute in (N_of_ascii a - 48) in
         change (N_of_ascii a - 48) with v
     end;
     f_equal; ring).
Qed.

(** Reading back the decimal form of a number gives the number. *)
Lemma number_str_of_int n : Wire.number (str_of_int n) = Some n.
Proof.
  unfold Wire.number, str_of_int.
  pose proof (digits_from_uint (N.to_uint n) 0) as H.
  rewrite N.mul_0_l, N.add_0_r, <- DecimalPos.Unsigned.of_uint_alt in H.
  change (Pos.of_uint (N.to_uint n)) with (N.of_uint (N.to_uint n)) in H.
  rewrite DecimalN.Unsigned.of_to in H.
  destruct (U (NilEmpty.string_of_uint (N.to_uint n))) eqn:E; [|exact H].
  destruct n as [|p]; [discriminate E|].
  cbn [N.to_uint] in E.
  pose proof (DecimalPos.Unsigned.to_uint_nonnil p) as Hp.
  destruct (Pos.to_uint p); [contradiction|..]; discriminate E.
Qed.

Lemma digits_str_of_int n : Forall digit (str_of_int n).
Proof. apply digits_of_uint. Qed.

(** ** The header block *)

Lemma header_line_check l :
  l <> [] -> forallb header_char l = true -> header_line l.
Proof.
  intros Hne H. split; [exact Hne|].
  apply Forall_forall. now apply forallb_forall.
Qed.

Lemma header_char_ascii c : header_char c = true -> c < 0x80.
Proof.
  unfold header_char. intros H. apply andb_true_iff in H as [H _].
  now apply N.ltb_lt.
Qed.

Lemma header_line_ascii l : header_line l -> ascii_text l.
Proof.
  intros [_ H]. unfold ascii_text.
  eapply Forall_impl; [|exact H]. apply header_char_ascii.
Qed.

Lemma digit_header_char c : digit c -> header_char c = true.
Proof.
  unfold digit, header_char. intros [Hl Hu].
  apply andb_true_iff. split; [apply N.ltb_lt; lia|].
  apply negb_true_iff, N.eqb_neq. lia.
Qed.

Lemma header_line_no_lf l : header_line l -> ~ In x0a (map octet l).
Proof.
  intros [_ H] Hin. apply in_map_iff in Hin as (c & Hc & Hin).
  rewrite Forall_forall in H. specialize (H c Hin).
  pose proof (header_char_ascii _ H) as Hlt.
  assert (E : Byte.to_N (octet c) = 10) by now rewrite Hc.
  rewrite to_N_octet in E by lia. subst.
  discriminate H.
Qed.

Lemma chomp_cr l : Wire.chomp (l ++ [x0d]) = l.
Proof.
  unfold Wire.chomp. rewrite rev_app_distr. cbn [rev app].
  apply rev_involutive.
Qed.

Lemma read_head_cut acc cur l rest :
  ~ In x0a l ->
  rev cur ++ l <> [] ->
  Wire.read_head acc cur (l ++ x0d :: x0a :: rest) =
    Wire.read_head ((rev cur ++ l) :: acc) [] rest.
Proof.
  revert cur; induction l as [|a l IH]; intros cur Hn Hne.
  - rewrite app_nil_r in *. cbn [app Wire.read_head].
    change (Byte.eqb x0d x0a) with false.
    change (Byte.eqb x0a x0a) with true. cbv iota.
    change (rev (x0d :: cur)) with (rev cur ++ [x0d]).
    rewrite chomp_cr. now destruct (rev cur).
  - cbn [app Wire.read_head].
    destruct (Byte.eqb a x0a) eqn:Ea.
    + apply Byte.byte_dec_bl in Ea. subst. exfalso. apply Hn. now left.
    + rewrite IH.
      * cbn [rev]. now rewrite <- app_assoc.
      * intros Hin. apply Hn. now right.
      * cbn [rev]. rewrite <- app_assoc. exact Hne.
Qed.

Lemma read_head_line acc l rest :
  header_line l ->
  Wire.read_head acc [] (map octet l ++ x0d :: x0a :: rest) =
    Wire.read_head (map octet l :: acc) [] rest.
Proof.
  intros Hl. apply (read_head_cut acc []).
  - now apply header_line_no_lf.
  - destruct Hl as [Hne _]. destruct l; [contradiction|discriminate].
Qed.

Lemma header_value_content_length v :
  Wire.header_value (U "Content-Length")
    [U "Content-Type: text/plain"; U "Content-Length: " ++ v] = Some v.
Proof.
  cbn [Wire.header_value].
  change (startswith (U "Content-Length" ++ U ": ")
            (U "Content-Type: text/plain")) with false.
  cbv iota.
  change (U "Content-Length" ++ U ": ") with (U "Content-Length: ").
  rewrite startswith_self_app.
  change (List.length (U "Content-Length") + 2)%nat
    with (List.length (U "Content-Length: ")).
  now rewrite skipn_length_app.
Qed.

(** The lines of what [create_response] builds. *)
Lemma create_response_lines code reason content :
  create_response code reason content =
    ((U "HTTP/1.1 " ++ str_of_int code ++ U " " ++ reason) ++ CRLF
     ++ U "Content-Type: text/plain" ++ CRLF
     ++ (U "Content-Length: " ++ str_of_int (len content)) ++ CRLF
     ++ CRLF)
    ++ content.
Proof.
  unfold create_response. cbn [join].
  now repeat rewrite <- app_assoc.
Qed.

Lemma content_length_line n :
  header_line (U "Content-Length: " ++ str_of_int n).
Proof.
  split; [discriminate|].
  apply Forall_app. split.
  - apply Forall_forall, forallb_forall. reflexivity.
  - eapply Forall_impl; [|apply digits_str_of_int].
    apply digit_header_char.
Qed.

Lemma status_line_read_back code reason :
  In (code, reason) statuses ->
  header_line (U "HTTP/1.1 " ++ str_of_int code ++ U " " ++ reason)
  /\ Wire.read_status_line
       (U "HTTP/1.1 " ++ str_of_int code ++ U " " ++ reason)
     = Some (code, reason).
Proof.
  intros [E|[E|[E|[E|[]]]]]; inversion E; subst;
    (split; [apply header_line_check; [discriminate|reflexivity]
            |reflexivity]).
Qed.

Lemma header_block_ascii l1 l2 l3 :
  header_line l1 -> header_line l2 -> header_line l3 ->
  ascii_text (l1 ++ CRLF ++ l2 ++ CRLF ++ l3 ++ CRLF ++ CRLF).
Proof.
  intros H1 H2 H3.
  apply header_line_ascii in H1, H2, H3.
  assert (ascii_text CRLF) by (repeat constructor).
  unfold ascii_text in *.
  repeat (apply Forall_app; split; [assumption|]). assumption.
Qed.

(** What [create_response] builds for one of the four statuses is read
    back as that status, the number of characters of the content as
    Content-Length, and the encoded content as body. *)
Lemma create_response_read_back code reason content payload :
  In (code, reason) statuses ->
  encode (create_response code reason content) = inr payload ->
  exists body,
    encode content = inr body
    /\ Wire.parse payload
       = Some {| Wire.status := code; Wire.reason := reason;
                 Wire.content_length := len content; Wire.body := body |}.
Proof.
  intros Hin H. rewrite create_response_lines in H.
  set (l1 := U "HTTP/1.1 " ++ str_of_int code ++ U " " ++ reason) in *.
  set (l2 := U "Content-Type: text/plain") in *.
  set (l3 := U "Content-Length: " ++ str_of_int (len content)) in *.
  destruct (status_line_read_back _ _ Hin) as [H1 Hs].
  fold l1 in H1, Hs.
  assert (H2 : header_line l2)
    by (apply header_line_check; [discriminate|reflexivity]).
  assert (H3 : header_line l3) by apply content_length_line.
  assert (Ha : ascii_text (l1 ++ CRLF ++ l2 ++ CRLF ++ l3 ++ CRLF ++ CRLF))
    by (apply header_block_ascii; assumption).
  apply (encode_ascii_app _ _ _ Ha) in H as (body & Hb & ->).
  exists body. split; [exact Hb|].
  unfold Wire.parse. rewrite !map_app.
  change (map octet CRLF) with [x0d; x0a].
  rewrite <- !app_assoc. cbn [app].
  rewrite !read_head_line by assumption.
  cbn [Wire.read_head]. change (Byte.eqb x0d x0a) with false.
  change (Byte.eqb x0a x0a) with true. cbv iota.
  change (Wire.chomp (rev [x0d])) with (@nil byte). cbv iota.
  cbn [rev app map].
  rewrite !text_octets by (apply header_line_ascii; assumption).
  rewrite Hs. subst l2 l3. rewrite header_value_content_length.
  now rewrite number_str_of_int.
Qed.

(** ** Every request that is not malformed is answered *)

Lemma ascii_scalar s : ascii_text s -> scalar_text s.
Proof.
  unfold ascii_text, scalar_text. apply Forall_impl.
  intros c Hc. unfold scalar. lia.
Qed.


Lemma handle_post_request_answers request path :
  scalar_text request ->
  exists code reason content,
    In (code, reason) statuses
    /\ scalar_text content
    /\ handle_post_request request path =
         ret (Text (create_response code reason content)).
Proof.
  intros Hr.
  destruct (last_item_split_once (CRLF ++ CRLF) request) as [body Hb].
  destruct (str_eqb path (U "/submit")) eqn:Hp.
  - apply str_eqb_eq in Hp. subst.
    exists 200, (U "OK"),
      (confirmation ++ field_lines (first_values (parse_qsl body))).
    split; [unfold statuses; simpl; tauto|].
    split; [|now apply handle_post_request_submit].
    apply Forall_app. split.
    + apply ascii_scalar, ascii_text_check. reflexivity.
    + apply field_lines_scalar, first_values_scalar, parse_qsl_scalar.
      eapply last_item_pieces; [|exact Hb].
      now apply split_once_pieces.
  - exists 404, (U "Not Found"), [].
    split; [unfold statuses; simpl; tauto|].
    split; [constructor|].
    now apply handle_post_request_elsewhere with (body := body).
Qed.

(** Every response the methods hand to [handle_client] is a text that
    [create_response] built for one of the four statuses. *)
Lemma respond_text w data payload :
  respond w data = inr payload ->
  exists code reason content,
    In (code, reason) statuses
    /\ encode (create_response code reason content) = inr payload.
Proof.
  unfold respond. intros H.
  destruct (decode data) as [e|request] eqn:Hd; [discriminate|].
  cbn [bind] in H.
  destruct (parse_request_line request) as [e|[method path]];
    [discriminate|].
  cbn [bind] in H.
  destruct (str_eqb method (U "GET")).
  { rewrite handle_get_request_forbidden in H.
    exists 403, (U "Forbidden"), [].
    split; [unfold statuses; simpl; tauto|exact H]. }
  destruct (str_eqb method (U "POST")).
  { destruct (handle_post_request_answers request path
                (decode_scalar _ _ Hd))
      as (code & reason & content & Hin & _ & Hp).
    rewrite Hp in H. now exists code, reason, content. }
  exists 405, (U "Method Not Allowed"), [].
  split; [unfold statuses; simpl; tauto|exact H].
Qed.

(** Every answer reads back as one of the four statuses, with the number
    of characters of its content as Content-Length; the body has at least
    as many octets, and as many when the content is ASCII. *)
Lemma answer_read_back w data payload :
  respond w data = inr payload ->
  exists m content,
    Wire.parse payload = Some m
    /\ In (Wire.status m, Wire.reason m) statuses
    /\ encode content = inr (Wire.body m)
    /\ Wire.content_length m = len content
    /\ Wire.content_length m <= len (Wire.body m)
    /\ (ascii_text content -> Wire.content_length m = len (Wire.body m)).
Proof.
  intros H.
  destruct (respond_text _ _ _ H) as (code & reason & content & Hin & He).
  destruct (create_response_read_back _ _ _ _ Hin He) as (body & Hb & Hp).
  eexists. exists content. split; [exact Hp|]. cbn.
  repeat split; try assumption.
  - now apply encode_length.
  - intros Ha. symmetry. now apply encode_length_ascii.
Qed.

(** The response of the branch of [handle_get_request] that reads the file
    is a [bytes] object, which [handle_client] cannot encode. *)
Lemma raw_response_raises b : encode_response (Raw b) = raise AttributeError.
Proof. reflexivity. Qed.



End WireFacts.

(* ===================================================================== *)
(** * Properties of the server                                            *)
(* ===================================================================== *)

Section Properties.
Import Py Server Vocab Sample.

(** C1.  A GET request for a file that exists under the static root should
    be answered with status 200 and the bytes of the file.  On the machine
    [www], where [./www/index.html] exists and can be read, the request
    [GET /index.html HTTP/1.1] is answered with [403 Forbidden] and an
    empty body: the guard of [handle_get_request] compares the normalized
    path, which has lost its leading [./], with the prefix [./www]. *)
Theorem get_existing_file_is_refused :
  open_rb www (U "./www/index.html") = inr index_html
  /\ normpath (U "./www/index.html") = U "www/index.html"
  /\ handle_client www get_index fresh = (answered fresh forbidden, None)
  /\ Wire.parse forbidden
     = Some {| Wire.status := 403; Wire.reason := U "Forbidden";
               Wire.content_length := 0;
               Wire.body := [] |}.
Proof. repeat split; vm_compute; reflexivity. Qed.

(** C2.  Content-Length should be the number of octets of the body.  For
    the form [name=%C3%A9] posted to [/submit] the header says 37, the
    number of characters of the text, and the body sent has 38 octets. *)
Theorem content_length_counts_characters :
  exists payload m,
    handle_client www post_e_acute fresh = (answered fresh payload, None)
    /\ Wire.parse payload = Some m
    /\ Wire.content_length m = 37
    /\ len (Wire.body m) = 38.
Proof.
  eexists. eexists.
  split; [apply handle_client_answers; vm_compute; reflexivity|].
  split; [vm_compute; reflexivity|].
  split; reflexivity.
Qed.

(** C3.  A GET request whose candidate path, normalized, lies outside the
    static root is answered with [403 Forbidden] and an empty body,
    whatever the file system holds. *)
Theorem traversal_is_forbidden w data request path c :
  decode data = inr request ->
  parse_request_line request = inr (U "GET", path) ->
  escapes_root (U "./www" ++ path) = true ->
  handle_client w data c = (answered c forbidden, None)
  /\ Wire.parse forbidden
     = Some {| Wire.status := 403; Wire.reason := U "Forbidden";
               Wire.content_length := 0;
               Wire.body := [] |}.
Proof.
  intros Hd Hp _. split; [|reflexivity].
  apply handle_client_answers.
  unfold respond. rewrite Hd. cbn [bind]. rewrite Hp. cbn [bind].
  rewrite str_eqb_refl, handle_get_request_forbidden.
  reflexivity.
Qed.

Lemma traversal_is_forbidden_witness :
  escapes_root (U "./www/../../etc/passwd") = true
  /\ handle_client www get_passwd fresh = (answered fresh forbidden, None).
Proof.
  split; [reflexivity|].
  apply (traversal_is_forbidden www get_passwd
           (U ("GET /../../etc/passwd HTTP/1.1" ++ crlf ++ crlf))
           (U "/../../etc/passwd") fresh); reflexivity.
Defined.

(** C4.  Serializing a response and reading its header block back should
    give the status code and, as Content-Length, the number of octets of
    the body.  For the form [price=] followed by the euro sign, posted to
    [/submit], the status code read back is 200 and the Content-Length read
    back is 38, while the body on the wire has 40 octets. *)
Theorem round_trip_length_differs :
  exists payload m,
    respond www post_euro = inr payload
    /\ Wire.parse payload = Some m
    /\ Wire.status m = 200
    /\ Wire.content_length m = 38
    /\ len (Wire.body m) = 40.
Proof.
  eexists. eexists.
  split; [vm_compute; reflexivity|].
  split; [vm_compute; reflexivity|].
  repeat split; reflexivity.
Qed.

(** C5.  A POST request to [/submit] whose body, the text behind the
    first blank line, is [name=Ada&name=Lovelace] is answered with status
    200 and the body made of the confirmation line and the line
    [name: Ada].  For any body in its place the answer is built from the
    confirmation line and one line [key: value] per key, with the first
    value of the key, keys in the order of their first occurrence. *)
Theorem submit_echoes_first_values w data head c :
  let request := head ++ (CRLF ++ CRLF) ++ U "name=Ada&name=Lovelace" in
  decode data = inr request ->
  contains (CRLF ++ CRLF) (head ++ [0x0D; 0x0A; 0x0D]) = false ->
  parse_request_line request = inr (U "POST", U "/submit") ->
  handle_client w data c = (answered c ada_answer, None)
  /\ Wire.parse ada_answer
     = Some {| Wire.status := 200; Wire.reason := U "OK";
               Wire.content_length := 39;
               Wire.body := B ("Form submitted successfully!" ++ lf
                               ++ "name: Ada" ++ lf) |}
  /\ first_values (parse_qsl (U "name=Ada&name=Lovelace"))
     = [(U "name", U "Ada")]
  /\ forall body,
       handle_post_request (head ++ (CRLF ++ CRLF) ++ body) (U "/submit")
       = ret (Text (create_response 200 (U "OK")
                      (confirmation
                       ++ field_lines (first_values (parse_qsl body))))).
Proof.
  intros request Hd Hc Hp.
  assert (Hcut : forall body,
             last_item (split_once (CRLF ++ CRLF)
                          (head ++ (CRLF ++ CRLF) ++ body)) = inr body).
  { intros body. apply last_item_split_first; [discriminate|exact Hc]. }
  split; [|split; [reflexivity|split; [reflexivity|]]].
  - apply handle_client_answers.
    unfold respond. rewrite Hd. cbn [bind]. rewrite Hp. cbn [bind].
    replace (str_eqb (U "POST") (U "GET")) with false by reflexivity.
    rewrite str_eqb_refl.
    unfold request. rewrite (handle_post_request_submit _ _ (Hcut _)).
    reflexivity.
  - intros body. apply handle_post_request_submit, Hcut.
Qed.

Lemma submit_echoes_first_values_witness :
  handle_client www post_ada fresh = (answered fresh ada_answer, None).
Proof.
  apply (submit_echoes_first_values www post_ada (U post_head) fresh);
    reflexivity.
Defined.

(** C6.  Two GET requests, one for [/] and one for [/index.html], leave
    the connection in the same state: same bytes sent, same output. *)
Theorem root_is_index w data1 data2 request1 request2 c :
  decode data1 = inr request1 ->
  parse_request_line request1 = inr (U "GET", U "/") ->
  decode data2 = inr request2 ->
  parse_request_line request2 = inr (U "GET", U "/index.html") ->
  handle_client w data1 c = handle_client w data2 c.
Proof.
  intros Hd1 Hp1 Hd2 Hp2.
  assert (H : respond w data1 = respond w data2).
  { unfold respond. rewrite Hd1, Hd2. cbn [bind]. rewrite Hp1, Hp2.
    cbn [bind]. rewrite str_eqb_refl. now rewrite get_root_is_get_index. }
  unfold handle_client, try_finally, try_except_Exception.
  now rewrite H.
Qed.

Lemma root_is_index_witness :
  handle_client www get_root fresh = handle_client www get_index fresh.
Proof.
  apply (root_is_index www get_root get_index
           (U ("GET / HTTP/1.1" ++ crlf ++ "Host: localhost" ++ crlf ++ crlf))
           (U ("GET /index.html HTTP/1.1" ++ crlf ++ "Host: localhost"
               ++ crlf ++ crlf)));
    reflexivity.
Defined.

(** C7.  When the received bytes are not UTF-8, or the request line does
    not have three tokens, the exception is caught and printed, nothing is
    sent, the connection is closed, and no exception leaves
    [handle_client]. *)
Theorem malformed_request_is_contained w data c :
  malformed data ->
  exists e,
    (e = UnicodeDecodeError \/ e = ValueError)
    /\ handle_client w data c = (dropped c e, None).
Proof.
  unfold malformed, request_line_tokens. intros H.
  destruct (decode data) as [e|request] eqn:Hd.
  - pose proof (decode_raises _ _ Hd) as He. subst e.
    exists UnicodeDecodeError. split; [now left|].
    apply handle_client_catches; [|reflexivity].
    unfold respond. now rewrite Hd.
  - exists ValueError. split; [now right|].
    apply handle_client_catches; [|reflexivity].
    unfold respond, parse_request_line. rewrite Hd. cbn [bind].
    pose proof (split_chr_not_nil LF request) as Hne.
    destruct (split_chr LF request) as [|line rest]; [contradiction|].
    cbn [first ret bind hd] in *.
    destruct (split_ws (strip line)) as [|a [|b [|x [|y l]]]];
      try reflexivity.
    now contradiction H.
Qed.

Lemma malformed_request_is_contained_witness :
  (malformed two_tokens
   /\ handle_client www two_tokens fresh = (dropped fresh ValueError, None))
  /\ (malformed bad_utf8
      /\ handle_client www bad_utf8 fresh
         = (dropped fresh UnicodeDecodeError, None)).
Proof.
  assert (H1 : malformed two_tokens) by (vm_compute; discriminate).
  assert (H2 : malformed bad_utf8) by exact I.
  split; (split; [assumption|]).
  - destruct (malformed_request_is_contained www two_tokens fresh H1)
      as (e & _ & He).
    rewrite He. vm_compute in He. now inversion He.
  - destruct (malformed_request_is_contained www bad_utf8 fresh H2)
      as (e & _ & He).
    rewrite He. vm_compute in He. now inversion He.
Defined.

(** C8.  A request whose method is neither GET nor POST is answered with
    [405 Method Not Allowed]. *)
Theorem other_method_not_allowed w data request method path c :
  decode data = inr request ->
  parse_request_line request = inr (method, path) ->
  method <> U "GET" ->
  method <> U "POST" ->
  handle_client w data c = (answered c method_not_allowed, None)
  /\ Wire.parse method_not_allowed
     = Some {| Wire.status := 405; Wire.reason := U "Method Not Allowed";
               Wire.content_length := 0; Wire.body := [] |}.
Proof.
  intros Hd Hp Hg Hpost. split; [|reflexivity].
  apply handle_client_answers.
  unfold respond. rewrite Hd. cbn [bind]. rewrite Hp. cbn [bind].
  now rewrite (str_eqb_neq _ _ Hg), (str_eqb_neq _ _ Hpost).
Qed.

Lemma other_method_not_allowed_witness :
  handle_client www put_index fresh = (answered fresh method_not_allowed, None).
Proof.
  apply (other_method_not_allowed www put_index
           (U ("PUT /index.html HTTP/1.1" ++ crlf ++ "Host: localhost"
               ++ crlf ++ crlf))
           (U "PUT") (U "/index.html") fresh);
    try reflexivity; discriminate.
Defined.

(** C9.  Whatever bytes arrive, [handle_client] sends one answer at most,
    and the status code of an answer is 200, 403, 404 or 405; each of the
    four is the status code of the answer to some request. *)
Theorem status_codes_emitted :
  (forall w data c,
     answers_within [200; 403; 404; 405] c (fst (handle_client w data c)))
  /\ (forall code, In code [200; 403; 404; 405] ->
      exists data payload,
        handle_client www data fresh = (answered fresh payload, None)
        /\ Wire.status_of payload = Some code).
Proof.
  split.
  - intros w data c. unfold answers_within.
    destruct (respond w data) as [e|payload] eqn:H.
    + left. destruct (is_Exception e) eqn:He.
      * now rewrite (handle_client_catches _ _ _ _ H He).
      * now rewrite (handle_client_lets_through _ _ _ _ H He).
    + right. rewrite (handle_client_answers _ _ _ _ H).
      destruct (respond_status _ _ _ H) as (code & Hs & Hin).
      now exists payload, code.
  - intros code [<-|[<-|[<-|[<-|[]]]]].
    + exists post_ada, ada_answer. split; reflexivity.
    + exists get_index, forbidden. split; reflexivity.
    + exists post_elsewhere,
        (B ("HTTP/1.1 404 Not Found" ++ crlf ++ "Content-Type: text/plain"
            ++ crlf ++ "Content-Length: 0" ++ crlf ++ crlf)).
      split; reflexivity.
    + exists put_index, method_not_allowed. split; reflexivity.
Qed.

(** C10.  When the text of a POST request holds no blank line, the body
    that [handle_post_request] parses as a form is the whole text, request
    line and header lines included. *)
Theorem post_without_blank_line request path :
  contains (CRLF ++ CRLF) request = false ->
  last_item (split_once (CRLF ++ CRLF) request) = inr request
  /\ handle_post_request request path =
       if str_eqb path (U "/submit")
       then ret (Text (create_response 200 (U "OK")
                         (confirmation
                          ++ field_lines
                               (first_values (parse_qsl request)))))
       else ret (Text (create_response 404 (U "Not Found") [])).
Proof.
  intros H.
  pose proof (last_item_split_absent _ _ H) as Hb.
  split; [exact Hb|].
  destruct (str_eqb path (U "/submit")) eqn:Hp.
  - apply str_eqb_eq in Hp. subst. now apply handle_post_request_submit.
  - now apply handle_post_request_elsewhere with (body := request).
Qed.

Lemma post_without_blank_line_witness :
  let request := U ("POST /submit HTTP/1.1" ++ crlf ++ "a=1&b=2") in
  decode post_no_blank_line = inr request
  /\ handle_post_request request (U "/submit") =
       ret (Text (create_response 200 (U "OK")
                    (U ("Form submitted successfully!" ++ lf
                        ++ "POST /submit HTTP/1.1" ++ crlf ++ "a: 1" ++ lf
                        ++ "b: 2" ++ lf)))).
Proof.
  split; [reflexivity|].
  rewrite (proj2 (post_without_blank_line
                    (U ("POST /submit HTTP/1.1" ++ crlf ++ "a=1&b=2"))
                    (U "/submit") eq_refl)).
  reflexivity.
Defined.

End Properties.

(* ===================================================================== *)
(** * The request line                                                    *)
(* ===================================================================== *)

Section RequestLineFacts.
Import Py Server Vocab.

Lemma split_chr_app_sep c a b :
  ~ In c a -> split_chr c (a ++ c :: b) = a :: split_chr c b.
Proof.
  induction a as [|x a IH]; intros H; cbn [app split_chr].
  - now rewrite N.eqb_refl.
  - destruct (x =? c) eqn:E.
    + apply N.eqb_eq in E. subst. exfalso. apply H. now left.
    + rewrite IH; [reflexivity|]. intros Hin. apply H. now right.
Qed.

Lemma first_split_chr_up_to c s : first (split_chr c s) = inr (up_to c s).
Proof.
  induction s as [|x t IH]; cbn [split_chr up_to]; [reflexivity|].
  destruct (x =? c); [reflexivity|].
  destruct (split_chr c t) as [|h r]; [discriminate IH|].
  cbn [first ret] in *. now inversion IH.
Qed.

Lemma up_to_app_sep c a b : ~ In c a -> up_to c (a ++ c :: b) = a.
Proof.
  induction a as [|x a IH]; intros H; cbn [app up_to].
  - now rewrite N.eqb_refl.
  - destruct (x =? c) eqn:E.
    + apply N.eqb_eq in E. subst. exfalso. apply H. now left.
    + rewrite IH; [reflexivity|]. intros Hin. apply H. now right.
Qed.

Lemma up_to_absent c s : ~ In c s -> up_to c s = s.
Proof.
  induction s as [|x t IH]; intros H; cbn [up_to]; [reflexivity|].
  destruct (x =? c) eqn:E.
  - apply N.eqb_eq in E. subst. exfalso. apply H. now left.
  - rewrite IH; [reflexivity|]. intros Hin. apply H. now right.
Qed.

(** ** [split()] *)

Lemma split_ws_from_blank cur g :
  blank g -> split_ws_from cur g = split_ws_from cur [].
Proof.
  intros Hg; revert cur; induction Hg as [|c g Hc _ IH]; intros cur;
    [reflexivity|].
  cbn [split_ws_from]. rewrite Hc.
  destruct cur; [apply IH|].
  now rewrite (IH []).
Qed.

Lemma split_ws_from_app_blank cur s g :
  blank g -> split_ws_from cur (s ++ g) = split_ws_from cur s.
Proof.
  intros Hg. revert cur; induction s as [|c s IH]; intros cur.
  - now apply split_ws_from_blank.
  - cbn [app split_ws_from]. destruct (isspace c).
    + destruct cur; now rewrite IH.
    + apply IH.
Qed.

Lemma split_ws_blank_app g s :
  blank g -> split_ws (g ++ s) = split_ws s.
Proof.
  unfold split_ws. induction 1 as [|c g Hc _ IH]; [reflexivity|].
  cbn [app split_ws_from]. now rewrite Hc.
Qed.

Lemma split_ws_from_token cur t s :
  Forall (fun c => isspace c = false) t ->
  split_ws_from cur (t ++ s) = split_ws_from (rev t ++ cur) s.
Proof.
  intros H; revert cur; induction H as [|c t Hc _ IH]; intros cur;
    [reflexivity|].
  cbn [app split_ws_from rev]. rewrite Hc, IH.
  now rewrite <- app_assoc.
Qed.

(** A token followed by a gap, or by nothing, is the first piece. *)
Lemma split_ws_token_gap t g s :
  token t -> gap g -> split_ws (t ++ g ++ s) = t :: split_ws (g ++ s).
Proof.
  intros [Hne Ht] [Hg Hb]. unfold split_ws.
  rewrite split_ws_from_token, app_nil_r by exact Ht.
  destruct g as [|c g]; [contradiction|].
  inversion Hb as [|? ? Hc _]; subst.
  cbn [app split_ws_from]. rewrite Hc.
  destruct (rev t) eqn:E.
  - apply (f_equal (@rev char)) in E. rewrite rev_involutive in E.
    now contradiction Hne.
  - rewrite <- E. now rewrite rev_involutive.
Qed.

Lemma split_ws_token_end t g :
  token t -> blank g -> split_ws (t ++ g) = [t].
Proof.
  intros [Hne Ht] Hb. unfold split_ws.
  rewrite split_ws_from_app_blank by exact Hb.
  rewrite <- (app_nil_r t) at 1.
  rewrite split_ws_from_token, app_nil_r by exact Ht.
  cbn [split_ws_from].
  destruct (rev t) eqn:E.
  - apply (f_equal (@rev char)) in E. rewrite rev_involutive in E.
    now contradiction Hne.
  - rewrite <- E. now rewrite rev_involutive.
Qed.

(** ** [strip()] before [split()] changes nothing *)

Lemma lstrip_decomp s : exists g, blank g /\ s = g ++ lstrip s.
Proof.
  induction s as [|c s (g & Hg & IH)].
  - exists []. split; [constructor|reflexivity].
  - cbn [lstrip]. destruct (isspace c) eqn:Hc.
    + exists (c :: g). split; [now constructor|].
      cbn [app]. now rewrite <- IH.
    + exists []. split; [constructor|reflexivity].
Qed.

Lemma blank_rev g : blank g -> blank (rev g).
Proof. unfold blank. apply Forall_rev. Qed.

Lemma split_ws_strip s : split_ws (strip s) = split_ws s.
Proof.
  unfold strip.
  destruct (lstrip_decomp s) as (g & Hg & Hs).
  destruct (lstrip_decomp (rev (lstrip s))) as (g' & Hg' & Hr).
  rewrite Hs at 2. rewrite split_ws_blank_app by exact Hg.
  apply (f_equal (@rev char)) in Hr.
  rewrite rev_involutive, rev_app_distr in Hr.
  rewrite Hr at 2. unfold split_ws.
  now rewrite split_ws_from_app_blank by now apply blank_rev.
Qed.

Lemma token_no_lf t : token t -> ~ In LF t.
Proof.
  intros [_ H] Hin. rewrite Forall_forall in H.
  specialize (H _ Hin). discriminate H.
Qed.

End RequestLineFacts.

(* ===================================================================== *)
(** * Encoding, then decoding                                             *)
(* ===================================================================== *)

Section CodecFacts.
Import Py Server Vocab.

Ltac case_tests :=
  repeat match goal with
         | |- context [?a <? ?b] => destruct (N.ltb_spec a b)
         | |- context [?a <=? ?b] => destruct (N.leb_spec a b)
         | |- context [?a =? ?b] => destruct (N.eqb_spec a b)
         | H : context [?a <? ?b] |- _ => destruct (N.ltb_spec a b)
         | H : context [?a <=? ?b] |- _ => destruct (N.leb_spec a b)
         end.

(** Settles a comparison where arithmetic decides it, and splits on it
    where it does not. *)
Ltac settle_tests :=
  repeat (match goal with
          | |- context [?a <? ?b] =>
              first [ rewrite (proj2 (N.ltb_lt a b)) by lia
                    | rewrite (proj2 (N.ltb_ge a b)) by lia
                    | destruct (N.ltb_spec a b) ]
          | |- context [?a <=? ?b] =>
              first [ rewrite (proj2 (N.leb_le a b)) by lia
                    | rewrite (proj2 (N.leb_gt a b)) by lia
                    | destruct (N.leb_spec a b) ]
          | |- context [?a =? ?b] =>
              first [ rewrite (proj2 (N.eqb_eq a b)) by lia
                    | rewrite (proj2 (N.eqb_neq a b)) by lia
                    | destruct (N.eqb_spec a b) ]
          end; cbn [andb orb negb]; cbv iota).

Lemma div_mod_64 c :
  exists q r, c / 0x40 = q /\ c mod 0x40 = r /\ c = 0x40 * q + r /\ r < 0x40.
Proof.
  exists (c / 0x40), (c mod 0x40). repeat split.
  - now apply N.div_mod.
  - now apply N.mod_lt.
Qed.

(** The decoder reads the octets of one character back as that
    character. *)
Lemma scan_encode_char c bs rest :
  encode_char c = inr bs ->
  scan_utf8 (map Byte.to_N bs ++ rest) = Some c :: scan_utf8 rest.
Proof.
  unfold encode_char.
  replace (c / 0x1000) with (c / 0x40 / 0x40)
    by (now rewrite N.Div0.div_div).
  replace (c / 0x40000) with (c / 0x40 / 0x40 / 0x40)
    by (now rewrite !N.Div0.div_div).
  destruct (div_mod_64 c) as (q1 & r1 & -> & -> & Hc1 & Hr1).
  destruct (div_mod_64 q1) as (q2 & r2 & -> & -> & Hc2 & Hr2).
  destruct (div_mod_64 q2) as (q3 & r3 & -> & -> & Hc3 & Hr3).
  remember (0xC0 + q1) as a2 eqn:Ea2.
  remember (0xE0 + q2) as a3 eqn:Ea3.
  remember (0xF0 + q3) as a4 eqn:Ea4.
  remember (0x80 + r1) as b1 eqn:Eb1.
  remember (0x80 + r2) as b2 eqn:Eb2.
  remember (0x80 + r3) as b3 eqn:Eb3.
  unfold ret, raise. intros H.
  case_tests; cbn [andb] in H; try discriminate H;
    injection H as <-;
    cbn [map app]; rewrite !to_N_octet by lia;
    cbn [scan_utf8]; unfold is_cont;
    settle_tests; f_equal; f_equal; lia.
Qed.

Lemma scan_encode s b rest :
  encode s = inr b ->
  scan_utf8 (map Byte.to_N b ++ rest) = map Some s ++ scan_utf8 rest.
Proof.
  revert b; induction s as [|c s IH]; intros b H; cbn [encode] in H.
  - inversion H. reflexivity.
  - destruct (encode_char c) as [e|bc] eqn:Hc; [discriminate|].
    cbn [bind] in H. destruct (encode s) as [e|r]; [discriminate|].
    cbn [bind ret] in H. inversion H; subst.
    rewrite map_app, <- app_assoc, (scan_encode_char _ _ _ Hc).
    cbn [map app]. now rewrite (IH r eq_refl).
Qed.

Lemma strict_map_Some s : strict (map Some s) = inr s.
Proof.
  induction s as [|c s IH]; [reflexivity|].
  cbn [map strict]. now rewrite IH.
Qed.

End CodecFacts.

(* ===================================================================== *)
(** * The form data                                                       *)
(* ===================================================================== *)

Section FormFacts.
Import Py Server Vocab.








(** ** A body without an equals sign *)

Lemma contains_single c s : ~ In c s -> contains [c] s = false.
Proof.
  induction s as [|x t IH]; intros H; [reflexivity|].
  cbn [contains startswith].
  destruct (c =? x) eqn:E.
  - apply N.eqb_eq in E. subst. exfalso. apply H. now left.
  - cbn [andb orb]. apply IH. intros Hin. apply H. now right.
Qed.

Lemma parse_qsl_no_equals qs : ~ In 0x3D qs -> parse_qsl qs = [].
Proof.
  intros H. unfold parse_qsl.
  assert (Hp : Forall (Forall (fun c => c <> 0x3D)) (split_chr 0x26 qs)).
  { apply split_chr_pieces. apply Forall_forall. intros c Hc ->.
    contradiction. }
  induction Hp as [|nv rest Hnv _ IH]; cbn [flat_map]; [reflexivity|].
  rewrite IH, app_nil_r.
  destruct nv as [|x nv']; [reflexivity|].
  unfold split_once. rewrite partition_absent; [reflexivity|].
  apply (contains_single 0x3D). intros Hin.
  rewrite Forall_forall in Hnv. now apply (Hnv _ Hin).
Qed.

(** ** Forms of plain fields *)

Lemma split_chr_absent c s : ~ In c s -> split_chr c s = [s].
Proof.
  induction s as [|x t IH]; intros H; cbn [split_chr]; [reflexivity|].
  destruct (x =? c) eqn:E.
  - apply N.eqb_eq in E. subst. exfalso. apply H. now left.
  - rewrite IH; [reflexivity|]. intros Hin. apply H. now right.
Qed.

Lemma split_chr_join c parts :
  parts <> [] ->
  Forall (fun piece => ~ In c piece) parts ->
  split_chr c (join [c] parts) = parts.
Proof.
  intros Hne H. induction H as [|p rest Hp Hrest IH]; [contradiction|].
  destruct rest as [|q rest].
  - cbn [join]. now apply split_chr_absent.
  - cbn [join app]. rewrite split_chr_app_sep by exact Hp.
    f_equal. apply IH. discriminate.
Qed.

Lemma plain_not_in c s :
  plain_char c = false -> plain s -> ~ In c s.
Proof.
  intros Hc H Hin. unfold plain in H. rewrite Forall_forall in H.
  specialize (H _ Hin). congruence.
Qed.

Lemma replace_chr_absent a b s : ~ In a s -> replace_chr a b s = s.
Proof.
  unfold replace_chr. induction s as [|x t IH]; intros H; [reflexivity|].
  cbn [map]. destruct (x =? a) eqn:E.
  - apply N.eqb_eq in E. subst. exfalso. apply H. now left.
  - rewrite IH; [reflexivity|]. intros Hin. apply H. now right.
Qed.

Lemma unquote_absent s : ~ In PERCENT s -> unquote s = s.
Proof.
  intros H. unfold unquote. now rewrite (contains_single _ _ H).
Qed.

Lemma plain_value s : plain s -> unquote (replace_chr 0x2B 0x20 s) = s.
Proof.
  intros H.
  rewrite replace_chr_absent by (apply plain_not_in; [reflexivity|exact H]).
  apply unquote_absent. apply plain_not_in; [reflexivity|exact H].
Qed.

End FormFacts.

(* ===================================================================== *)
(** * Responses with any status                                           *)
(* ===================================================================== *)

Section ResponseFacts.
Import Py Server Vocab.

Lemma join_split_chr c s : join [c] (split_chr c s) = s.
Proof.
  induction s as [|x t IH]; [reflexivity|].
  cbn [split_chr].
  pose proof (split_chr_not_nil c t) as Hne.
  destruct (x =? c) eqn:E.
  - apply N.eqb_eq in E. subst.
    destruct (split_chr c t) as [|h r]; [contradiction|].
    cbn [join app] in *. now rewrite IH.
  - destruct (split_chr c t) as [|h r]; [contradiction|].
    destruct r; cbn [join app] in *; now rewrite <- IH.
Qed.

Lemma digit_not_space n : ~ In 0x20 (str_of_int n).
Proof.
  intros Hin. pose proof (digits_str_of_int n) as H.
  rewrite Forall_forall in H. specialize (H _ Hin).
  unfold digit in H. lia.
Qed.

(** The status line with any code and reason. *)
Lemma status_line_read_back_any code reason :
  Forall (fun c => header_char c = true) reason ->
  header_line (U "HTTP/1.1 " ++ str_of_int code ++ U " " ++ reason)
  /\ Wire.read_status_line
       (U "HTTP/1.1 " ++ str_of_int code ++ U " " ++ reason)
     = Some (code, reason).
Proof.
  intros Hr. split.
  - split; [discriminate|].
    repeat (apply Forall_app; split); try assumption.
    + apply Forall_forall, forallb_forall. reflexivity.
    + eapply Forall_impl; [|apply digits_str_of_int].
      apply digit_header_char.
    + repeat constructor.
  - unfold Wire.read_status_line.
    change (U "HTTP/1.1 " ++ str_of_int code ++ U " " ++ reason)
      with (U "HTTP/1.1" ++ 0x20 :: (str_of_int code ++ 0x20 :: reason)).
    rewrite split_chr_app_sep
      by (cbn; intuition discriminate).
    rewrite split_chr_app_sep by apply digit_not_space.
    now rewrite number_str_of_int, join_split_chr.
Qed.

End ResponseFacts.

(* ===================================================================== *)
(** * Further properties of the server                                    *)
(* ===================================================================== *)

Section MoreProperties.
Import Py Server Vocab Sample.

(** X1.  The request line is read whatever white space surrounds its three
    tokens, as long as no LF is in it: the method is the first token, the
    path is the second token up to its first question mark, with percent
    escapes decoded; the third token and what follows the first LF play no
    part. *)
Theorem request_line_is_read method target version g0 g1 g2 g3 rest :
  token method -> token target -> token version ->
  blank g0 -> gap g1 -> gap g2 -> blank g3 ->
  ~ In LF (g0 ++ g1 ++ g2 ++ g3) ->
  parse_request_line
    (g0 ++ method ++ g1 ++ target ++ g2 ++ version ++ g3 ++ LF :: rest)
  = inr (method, unquote (up_to 0x3F target)).
Proof.
  intros Hm Ht Hv H0 H1 H2 H3 Hlf.
  unfold parse_request_line. rewrite first_split_chr_up_to. cbn [bind].
  replace (g0 ++ method ++ g1 ++ target ++ g2 ++ version ++ g3 ++ LF :: rest)
    with ((g0 ++ method ++ g1 ++ target ++ g2 ++ version ++ g3) ++ LF :: rest)
    by (now rewrite <- !app_assoc).
  rewrite up_to_app_sep.
  - rewrite split_ws_strip, split_ws_blank_app by exact H0.
    rewrite split_ws_token_gap by assumption.
    destruct H1 as [_ H1]. rewrite split_ws_blank_app by exact H1.
    rewrite split_ws_token_gap by assumption.
    destruct H2 as [_ H2]. rewrite split_ws_blank_app by exact H2.
    rewrite split_ws_token_end by assumption.
    cbn [unpack3 ret bind]. now rewrite first_split_chr_up_to.
  - pose proof (token_no_lf _ Hm). pose proof (token_no_lf _ Ht).
    pose proof (token_no_lf _ Hv).
    rewrite !in_app_iff in *. tauto.
Qed.

Lemma request_line_is_read_witness :
  parse_request_line
    (U " " ++ U "GET" ++ U "  " ++ U "/a%20b?x=1" ++ U " " ++ U "HTTP/1.1"
     ++ [0x0D] ++ LF :: U "Host: localhost")
  = inr (U "GET", U "/a b").
Proof.
  assert (Hb : forall s, forallb isspace s = true -> blank s).
  { intros s H. apply Forall_forall. now apply forallb_forall. }
  assert (Ht : forall s, s <> [] ->
                         forallb (fun c => negb (isspace c)) s = true ->
                         token s).
  { intros s Hne H. split; [exact Hne|]. apply Forall_forall.
    intros c Hc. apply negb_true_iff. revert c Hc.
    now apply forallb_forall. }
  apply (request_line_is_read (U "GET") (U "/a%20b?x=1") (U "HTTP/1.1")
           (U " ") (U "  ") (U " ") [0x0D] (U "Host: localhost")).
  - apply Ht; [discriminate|reflexivity].
  - apply Ht; [discriminate|reflexivity].
  - apply Ht; [discriminate|reflexivity].
  - apply Hb; reflexivity.
  - split; [discriminate|apply Hb; reflexivity].
  - split; [discriminate|apply Hb; reflexivity].
  - apply Hb; reflexivity.
  - cbn. intuition discriminate.
Defined.

(** X2.  Every GET request is answered with [403 Forbidden] and an empty
    body, whatever its path and whatever the file system holds: a file that
    exists is not served, and a file that is missing is not reported as
    missing. *)
Theorem every_get_is_forbidden w data request path c :
  decode data = inr request ->
  parse_request_line request = inr (U "GET", path) ->
  handle_client w data c = (answered c forbidden, None).
Proof.
  intros Hd Hp. apply handle_client_answers.
  unfold respond. rewrite Hd. cbn [bind]. rewrite Hp. cbn [bind].
  now rewrite str_eqb_refl, handle_get_request_forbidden.
Qed.

Lemma every_get_is_forbidden_witness :
  open_rb www (U "./www/no-such-file.html") = inl FileNotFoundError
  /\ handle_client www get_missing fresh = (answered fresh forbidden, None).
Proof.
  split; [reflexivity|].
  apply (every_get_is_forbidden www get_missing
           (U ("GET /no-such-file.html HTTP/1.1" ++ crlf ++ crlf))
           (U "/no-such-file.html") fresh); reflexivity.
Defined.

(** X3.  What [handle_client] does never depends on the file system or on
    the table of MIME types: no request makes it open a file. *)
Theorem file_system_is_never_consulted w1 w2 data c :
  handle_client w1 data c = handle_client w2 data c.
Proof.
  assert (H : respond w1 data = respond w2 data).
  { unfold respond. destruct (decode data) as [e|request]; [reflexivity|].
    cbn [bind].
    destruct (parse_request_line request) as [e|[method path]];
      [reflexivity|].
    cbn [bind]. destruct (str_eqb method (U "GET")); [|reflexivity].
    now rewrite !handle_get_request_forbidden. }
  unfold handle_client, try_finally, try_except_Exception. now rewrite H.
Qed.

(** X4.  A POST request to a path other than [/submit] is answered with
    [404 Not Found] and an empty body, whatever its body holds. *)
Theorem post_elsewhere_is_not_found w data request path c :
  decode data = inr request ->
  parse_request_line request = inr (U "POST", path) ->
  path <> U "/submit" ->
  handle_client w data c = (answered c not_found, None)
  /\ Wire.parse not_found
     = Some {| Wire.status := 404; Wire.reason := U "Not Found";
               Wire.content_length := 0; Wire.body := [] |}.
Proof.
  intros Hd Hp Hn. split; [|reflexivity].
  apply handle_client_answers.
  unfold respond. rewrite Hd. cbn [bind]. rewrite Hp. cbn [bind].
  replace (str_eqb (U "POST") (U "GET")) with false by reflexivity.
  rewrite str_eqb_refl.
  destruct (last_item_split_once (CRLF ++ CRLF) request) as [body Hb].
  rewrite (handle_post_request_elsewhere _ _ _ Hb (str_eqb_neq _ _ Hn)).
  reflexivity.
Qed.

Lemma post_elsewhere_is_not_found_witness :
  handle_client www post_elsewhere fresh = (answered fresh not_found, None).
Proof.
  apply (post_elsewhere_is_not_found www post_elsewhere
           (U ("POST /other HTTP/1.1" ++ crlf ++ crlf ++ "name=Ada"))
           (U "/other") fresh); try reflexivity; discriminate.
Defined.


(** X6.  What [encode] produces, [decode] reads back unchanged: the text
    the server encodes for [sendall] is the text a UTF-8 decoder gets from
    the octets. *)
Theorem decode_inverts_encode s b :
  encode s = inr b -> decode b = inr s.
Proof.
  intros H. unfold decode.
  rewrite <- (app_nil_r (map Byte.to_N b)).
  rewrite (scan_encode _ _ [] H). cbn [scan_utf8].
  rewrite app_nil_r. apply strict_map_Some.
Qed.

Lemma decode_inverts_encode_witness :
  decode [x61; xc3; xa9; xe2; x82; xac; xf0; x9f; x98; x80]
  = inr [0x61; 0xE9; 0x20AC; 0x1F600].
Proof.
  apply (decode_inverts_encode [0x61; 0xE9; 0x20AC; 0x1F600]).
  reflexivity.
Defined.

(** X7.  Every answer the server sends reads back as a status line with
    one of the four statuses, and its body is the UTF-8 form of a text whose
    number of characters is the Content-Length: the header never exceeds
    the number of octets of the body, and equals it when that text is
    ASCII. *)
Theorem content_length_is_character_count w data c payload :
  handle_client w data c = (answered c payload, None) ->
  exists m content,
    Wire.parse payload = Some m
    /\ In (Wire.status m, Wire.reason m) statuses
    /\ decode (Wire.body m) = inr content
    /\ Wire.content_length m = len content
    /\ Wire.content_length m <= len (Wire.body m)
    /\ (ascii_text content -> Wire.content_length m = len (Wire.body m)).
Proof.
  intros H.
  assert (Hr : respond w data = inr payload).
  { destruct (respond w data) as [e|p] eqn:E.
    - exfalso. destruct (is_Exception e) eqn:He.
      + rewrite (handle_client_catches _ _ _ _ E He) in H.
        inversion H as [[Hs Ho]].
        apply (f_equal (@List.length _)) in Ho.
        rewrite length_app in Ho. cbn [List.length] in Ho. lia.
      + rewrite (handle_client_lets_through _ _ _ _ E He) in H.
        discriminate H.
    - rewrite (handle_client_answers _ _ _ _ E) in H.
      inversion H as [[Hs]]. apply app_inv_head in Hs. now inversion Hs. }
  destruct (answer_read_back _ _ _ Hr)
    as (m & content & Hp & Hin & He & Hl & Hle & Ha).
  exists m, content. repeat split; try assumption.
  unfold decode. rewrite <- (app_nil_r (map Byte.to_N (Wire.body m))).
  rewrite (scan_encode _ _ [] He). cbn [scan_utf8].
  rewrite app_nil_r. apply strict_map_Some.
Qed.

Lemma content_length_is_character_count_witness :
  exists m,
    Wire.parse ada_answer = Some m
    /\ Wire.content_length m = 39
    /\ len (Wire.body m) = 39.
Proof.
  destruct (content_length_is_character_count www post_ada fresh ada_answer
              eq_refl)
    as (m & content & Hp & _ & _ & _ & _ & _).
  exists m. split; [exact Hp|].
  vm_compute in Hp. inversion Hp. split; reflexivity.
Defined.


(** X9.  When the body of a POST request to [/submit] holds no equals
    sign, and so no field with a value, the answer is the confirmation
    line alone, with status 200. *)
Theorem form_without_values w data head body c :
  let request := head ++ (CRLF ++ CRLF) ++ body in
  decode data = inr request ->
  contains (CRLF ++ CRLF) (head ++ [0x0D; 0x0A; 0x0D]) = false ->
  parse_request_line request = inr (U "POST", U "/submit") ->
  ~ In 0x3D body ->
  handle_client w data c = (answered c confirmation_answer, None)
  /\ Wire.parse confirmation_answer
     = Some {| Wire.status := 200; Wire.reason := U "OK";
               Wire.content_length := 29;
               Wire.body := B ("Form submitted successfully!" ++ lf) |}.
Proof.
  intros request Hd Hc Hp He. split; [|reflexivity].
  apply handle_client_answers.
  unfold respond. rewrite Hd. cbn [bind]. rewrite Hp. cbn [bind].
  replace (str_eqb (U "POST") (U "GET")) with false by reflexivity.
  rewrite str_eqb_refl.
  assert (Hb : last_item (split_once (CRLF ++ CRLF) request) = inr body)
    by (apply last_item_split_first; [discriminate|exact Hc]).
  rewrite (handle_post_request_submit _ _ Hb).
  rewrite (parse_qsl_no_equals _ He). reflexivity.
Qed.

Lemma form_without_values_witness :
  handle_client www post_words fresh
  = (answered fresh confirmation_answer, None).
Proof.
  apply (form_without_values www post_words (U post_head) (U "hello&world")
           fresh); try reflexivity.
  cbn. intuition discriminate.
Defined.

(** X10.  What [create_response] builds, for any status code, any reason
    phrase of ASCII characters without LF, and any content that can be
    encoded, reads back from the octets as that status code, that reason,
    the number of characters of the content as Content-Length, and the
    encoded content as body. *)
Theorem create_response_round_trip code reason content payload :
  Forall (fun c => header_char c = true) reason ->
  encode (create_response code reason content) = inr payload ->
  exists body,
    encode content = inr body
    /\ Wire.parse payload
       = Some {| Wire.status := code; Wire.reason := reason;
                 Wire.content_length := len content; Wire.body := body |}.
Proof.
  intros Hr H. rewrite create_response_lines in H.
  destruct (status_line_read_back_any code _ Hr) as [H1 Hs].
  set (l1 := U "HTTP/1.1 " ++ str_of_int code ++ U " " ++ reason) in *.
  set (l2 := U "Content-Type: text/plain") in *.
  set (l3 := U "Content-Length: " ++ str_of_int (len content)) in *.
  assert (H2 : header_line l2)
    by (apply header_line_check; [discriminate|reflexivity]).
  assert (H3 : header_line l3) by apply content_length_line.
  assert (Ha : ascii_text (l1 ++ CRLF ++ l2 ++ CRLF ++ l3 ++ CRLF ++ CRLF))
    by (apply header_block_ascii; assumption).
  apply (encode_ascii_app _ _ _ Ha) in H as (body & Hb & ->).
  exists body. split; [exact Hb|].
  unfold Wire.parse. rewrite !map_app.
  change (map octet CRLF) with [x0d; x0a].
  rewrite <- !app_assoc. cbn [app].
  rewrite !read_head_line by assumption.
  cbn [Wire.read_head]. change (Byte.eqb x0d x0a) with false.
  change (Byte.eqb x0a x0a) with true. cbv iota.
  change (Wire.chomp (rev [x0d])) with (@nil byte). cbv iota.
  cbn [rev app map].
  rewrite !text_octets by (apply header_line_ascii; assumption).
  rewrite Hs. subst l2 l3. rewrite header_value_content_length.
  now rewrite number_str_of_int.
Qed.

Lemma create_response_round_trip_witness :
  exists payload,
    encode (create_response 418 (U "I'm a teapot") (U "short and stout"))
    = inr payload
    /\ Wire.parse payload
       = Some {| Wire.status := 418; Wire.reason := U "I'm a teapot";
                 Wire.content_length := 15;
                 Wire.body := B "short and stout" |}.
Proof.
  destruct (encode (create_response 418 (U "I'm a teapot")
                      (U "short and stout"))) as [e|payload] eqn:E;
    [discriminate E|].
  exists payload. split; [reflexivity|].
  destruct (create_response_round_trip 418 (U "I'm a teapot")
              (U "short and stout") payload) as (body & Hb & Hp).
  - apply Forall_forall, forallb_forall. reflexivity.
  - exact E.
  - rewrite Hp. vm_compute in Hb. inversion Hb. reflexivity.
Defined.

(** X11.  [handle_post_request] never raises, for any request text and
    any path: the list it indexes with [-1] and the lists it indexes with
    [0] are never empty.  It returns the 200 response with the
    confirmation line and the field lines for [/submit], and the 404
    response for every other path. *)
Theorem handle_post_request_never_raises request path :
  exists body,
    last_item (split_once (CRLF ++ CRLF) request) = inr body
    /\ handle_post_request request path =
         inr (Text (if str_eqb path (U "/submit")
                    then create_response 200 (U "OK")
                           (confirmation
                            ++ field_lines (first_values (parse_qsl body)))
                    else create_response 404 (U "Not Found") [])).
Proof.
  destruct (last_item_split_once (CRLF ++ CRLF) request) as [body Hb].
  exists body. split; [exact Hb|].
  destruct (str_eqb path (U "/submit")) eqn:Hp.
  - apply str_eqb_eq in Hp. subst. now apply handle_post_request_submit.
  - now apply handle_post_request_elsewhere with (body := body).
Qed.

(** X12.  A form body made of fields [key=value] joined by [&], whose keys
    and values hold none of [&], [=], [%] and [+] and whose values are not
    empty, is parsed into exactly these fields, in their order; posted to
    [/submit] behind the first blank line of the request, it is answered
    with the confirmation line and one line per key with the first value
    of the key. *)
Theorem plain_form_is_read_back pairs head :
  Forall plain_field pairs ->
  contains (CRLF ++ CRLF) (head ++ [0x0D; 0x0A; 0x0D]) = false ->
  parse_qsl (form_body pairs) = pairs
  /\ handle_post_request (head ++ (CRLF ++ CRLF) ++ form_body pairs)
       (U "/submit")
     = ret (Text (create_response 200 (U "OK")
                    (confirmation ++ field_lines (first_values pairs)))).
Proof.
  intros Hf Hc.
  assert (Hq : parse_qsl (form_body pairs) = pairs).
  { unfold parse_qsl, form_body.
    destruct pairs as [|kv0 pairs0] eqn:Ep; [reflexivity|].
    rewrite <- Ep in *. rewrite split_chr_join.
    - clear Ep Hc. induction Hf as [|[k v] rest (Hk & Hv & Hne) _ IH];
        [reflexivity|].
      cbn [map flat_map fst snd] in *. rewrite IH. clear IH.
      assert (He : split_once (U "=") (k ++ 0x3D :: v) = [k; v]).
      { unfold split_once.
        change (k ++ 0x3D :: v) with (k ++ U "=" ++ v).
        rewrite partition_first; [reflexivity|discriminate|].
        cbn [removelast U map list_ascii_of_string]. rewrite app_nil_r.
        apply (contains_single 0x3D).
        apply plain_not_in; [reflexivity|exact Hk]. }
      unfold str, char in *. revert He.
      destruct (k ++ 0x3D :: v) eqn:Ek; [now destruct k|].
      intros He. rewrite He. destruct v; [contradiction|].
      now rewrite !plain_value.
    - subst pairs. discriminate.
    - clear Ep Hc. induction Hf as [|[k v] rest (Hk & Hv & _) _ IH];
        constructor; [|exact IH].
      cbn [fst snd]. intros Hin. apply in_app_or in Hin as [Hin|[E|Hin]].
      + revert Hin. apply plain_not_in; [reflexivity|exact Hk].
      + discriminate E.
      + revert Hin. apply plain_not_in; [reflexivity|exact Hv]. }
  split; [exact Hq|].
  rewrite <- Hq at 2. apply handle_post_request_submit.
  apply last_item_split_first; [discriminate|exact Hc].
Qed.

Lemma plain_form_is_read_back_witness :
  parse_qsl (U "name=Ada&lang=en&name=Lovelace")
  = [(U "name", U "Ada"); (U "lang", U "en"); (U "name", U "Lovelace")].
Proof.
  assert (Hp : forall s, forallb plain_char s = true -> plain s).
  { intros s H. apply Forall_forall. now apply forallb_forall. }
  apply (plain_form_is_read_back
           [(U "name", U "Ada"); (U "lang", U "en"); (U "name", U "Lovelace")]
           (U post_head)); [|reflexivity].
  repeat constructor; cbn [fst snd]; try (apply Hp; reflexivity);
    discriminate.
Defined.

End MoreProperties.
